(** * DriverLink backend: dispatch and notification engine

    A shallow embedding of the engine of the DriverLink backend,

    - [services/assignment_service.py] (class [DriverAssignmentService]),
    - [osrm_client.py] (class [OSRMClient]),
    - [websocket_manager.py] (class [ConnectionManager]),
    - the rows of [models.py] and the constants of [config.py] they use,

    followed by the properties of the engine that the specification
    states.  Definitions keep the names of the Python source. *)

From stdpp Require Import base option list strings gmap.
From Stdlib Require Import ZArith QArith Qabs Reals Lra Lia Sorted.
From Stdlib Require Import String Ascii.
From Stdlib Require Import Machin.

Local Open Scope string_scope.
Local Open Scope Z_scope.

(* ================================================================= *)
(** ** Python numbers *)

(** The engine computes with Python [float]s (weights, coordinates,
    distances) and compares them with [int] literals.  The carrier is
    kept abstract: the functions below only multiply, compare and read
    literals, so they are written once over an interface and run on the
    rationals, while the haversine formula, which needs trigonometry, is
    stated over the reals.  Rounding, infinities and NaN are outside this
    interface. *)
Class PyFloat (F : Type) := {
  f_of_int : Z -> F;           (* an [int] literal used as a [float] *)
  f_mul : F -> F -> F;         (* [*]  *)
  f_le : F -> F -> bool;       (* [<=] *)
  f_lt : F -> F -> bool;       (* [<], the comparison [list.sort] uses *)
}.

Class PyFloatOrder (F : Type) `{PyFloat F} := {
  f_le_total : forall a b, f_le a b = true \/ f_le b a = true;
  f_le_trans : forall a b c, f_le a b = true -> f_le b c = true -> f_le a c = true;
  f_lt_le : forall a b, f_lt a b = negb (f_le b a);
  f_of_int_le : forall m n, f_le (f_of_int m) (f_of_int n) = (m <=? n);
}.

#[export] Instance Q_float : PyFloat Q := {
  f_of_int := inject_Z;
  f_mul := Qmult;
  f_le := Qle_bool;
  f_lt := fun a b => negb (Qle_bool b a);
}.

#[export] Instance R_float : PyFloat R := {
  f_of_int := IZR;
  f_mul := Rmult;
  f_le := fun a b => if Rle_dec a b then true else false;
  f_lt := fun a b => if Rlt_dec a b then true else false;
}.

(* ================================================================= *)
(** ** models.py *)

Inductive ApprovalStatus := AP_PENDING | APPROVED | REJECTED.
Inductive DriverStatus := AVAILABLE | BUSY | OFFLINE.
Inductive OrderStatus := PENDING | ASSIGNED | IN_PROGRESS | DELIVERED | CANCELLED.
Inductive VehicleType := MOTORCYCLE | CAR | VAN | TRUCK.

#[export] Instance ApprovalStatus_eq_dec : EqDecision ApprovalStatus.
Proof. solve_decision. Defined.
#[export] Instance DriverStatus_eq_dec : EqDecision DriverStatus.
Proof. solve_decision. Defined.
#[export] Instance OrderStatus_eq_dec : EqDecision OrderStatus.
Proof. solve_decision. Defined.
#[export] Instance VehicleType_eq_dec : EqDecision VehicleType.
Proof. solve_decision. Defined.

(** [c.upper()] on one character, and [str.upper] (ASCII letters). *)
Definition upper_ascii (c : ascii) : ascii :=
  let n := nat_of_ascii c in
  if ((97 <=? n)%nat && (n <=? 122)%nat)%bool then ascii_of_nat (n - 32) else c.

Fixpoint upper (s : string) : string :=
  match s with
  | EmptyString => EmptyString
  | String c s' => String (upper_ascii c) (upper s')
  end.

(** [getattr(VehicleType, name)]: the member of that name, [None] for the
    [AttributeError] of an unknown name. *)
Definition VehicleType_getattr (name : string) : option VehicleType :=
  if String.eqb name "MOTORCYCLE" then Some MOTORCYCLE
  else if String.eqb name "CAR" then Some CAR
  else if String.eqb name "VAN" then Some VAN
  else if String.eqb name "TRUCK" then Some TRUCK
  else None.

(** The rows.  Only the columns the engine reads or writes are kept;
    identifiers are Python [int]s, instants are abstract integers. *)
Module Driver.
Record t {F : Type} := mk {
  id : Z;
  vehicle_type : VehicleType;
  current_latitude : option F;
  current_longitude : option F;
  status : DriverStatus;
  approval_status : ApprovalStatus;
}.
Arguments t : clear implicits.
Arguments mk {F}.
End Driver.

Module Order.
Record t {F : Type} := mk {
  id : Z;
  driver_id : option Z;
  pickup_latitude : F;
  pickup_longitude : F;
  weight_kg : option F;
  value : option F;
  status : OrderStatus;
  assigned_at : option Z;
}.
Arguments t : clear implicits.
Arguments mk {F}.
End Order.

Module OrderNotification.
Record t {F : Type} := mk {
  order_id : Z;
  driver_id : Z;
  response : option string;
  response_at : option Z;
  distance_km : F;
}.
Arguments t : clear implicits.
Arguments mk {F}.
End OrderNotification.

(** The tables, in storage order.  A row is identified by its position,
    which plays the role of the object identity of the ORM. *)
Record DB {F : Type} := mkDB {
  orders : list (Order.t F);
  drivers : list (Driver.t F);
  order_notifications : list (OrderNotification.t F);
}.
Arguments DB : clear implicits.
Arguments mkDB {F}.

(* ================================================================= *)
(** ** config.py *)

Definition MAX_DISTANCE_KM : Z := 50.
Definition MAX_DRIVERS_TO_NOTIFY : nat := 5.

(* ================================================================= *)
(** ** osrm_client.py *)

(** The dictionary [get_distance_and_duration] returns on success. *)
Module RouteInfo.
Record t {F : Type} := mk { distance_km : F; duration_minutes : F }.
Arguments t : clear implicits.
Arguments mk {F}.
End RouteInfo.

(** One entry of the list [calculate_drivers_distances] returns. *)
Module DistanceInfo.
Record t {F : Type} := mk { driver_id : Z; distance_km : F; duration_minutes : F }.
Arguments t : clear implicits.
Arguments mk {F}.
End DistanceInfo.

Section OSRMClient.
Context {F : Type} `{PyFloat F}.

(** [get_distance_and_duration] is the HTTP request to the routing
    service: its [k]-th call of a batch answers with a route or with
    [None] (time-out, bad status, no route, malformed body). *)
Variable get_distance_and_duration : nat -> F * F -> F * F -> option (RouteInfo.t F).
Variable calculate_haversine_distance : F * F -> F * F -> F.

Fixpoint calculate_drivers_distances_from (k : nat) (pickup_location : F * F)
    (driver_locations : list (F * F * Z)) : list (DistanceInfo.t F) :=
  match driver_locations with
  | [] => []
  | (lat, lon, driver_id) :: rest =>
      let driver_location := (lat, lon) in
      let entry :=
        match get_distance_and_duration k pickup_location driver_location with
        | Some route_info =>
            DistanceInfo.mk driver_id
              (RouteInfo.distance_km route_info)
              (RouteInfo.duration_minutes route_info)
        | None =>
            let distance_km :=
              calculate_haversine_distance pickup_location driver_location in
            DistanceInfo.mk driver_id distance_km (f_mul distance_km (f_of_int 2))
        end in
      entry :: calculate_drivers_distances_from (S k) pickup_location rest
  end.

Definition calculate_drivers_distances := calculate_drivers_distances_from 0.
End OSRMClient.

(** [math.radians] and the static method [calculate_haversine_distance],
    over the reals. *)
Definition radians (x : R) : R := (x * (PI / 180))%R.

Definition calculate_haversine_distance (point1 point2 : R * R) : R :=
  let '(lat1, lon1) := point1 in
  let '(lat2, lon2) := point2 in
  let lat1 := radians lat1 in
  let lon1 := radians lon1 in
  let lat2 := radians lat2 in
  let lon2 := radians lon2 in
  let dlat := (lat2 - lat1)%R in
  let dlon := (lon2 - lon1)%R in
  let a := (sin (dlat / 2) ^ 2 + cos lat1 * cos lat2 * sin (dlon / 2) ^ 2)%R in
  let c := (2 * asin (sqrt a))%R in
  let r := 6371%R in
  (c * r)%R.

(* ================================================================= *)
(** ** services/assignment_service.py: candidate selection *)

(** One entry of the list [find_available_drivers] returns. *)
Module Candidate.
Record t {F : Type} := mk {
  driver_id : Z;
  driver : Driver.t F;
  distance_km : F;
  duration_minutes : F;
}.
Arguments t : clear implicits.
Arguments mk {F}.
End Candidate.

Section Selection.
Context {F : Type} `{PyFloat F}.
Variable get_distance_and_duration : nat -> F * F -> F * F -> option (RouteInfo.t F).
Variable calculate_haversine_distance : F * F -> F * F -> F.

Definition get_best_vehicle_type_for_order (weight_kg value : option F) : string :=
  let weight_kg := match weight_kg with None => f_of_int 1 | Some w => w end in
  if f_le weight_kg (f_of_int 5) then "motorcycle"
  else if f_le weight_kg (f_of_int 50) then "car"
  else if f_le weight_kg (f_of_int 200) then "van"
  else "truck".

(** [list.sort(key=...)]: a stable sort that compares keys with [<]. *)
Fixpoint insert_by_key {A : Type} (key : A -> F) (x : A) (l : list A) : list A :=
  match l with
  | [] => [x]
  | y :: l' => if f_lt (key y) (key x) then y :: insert_by_key key x l' else x :: l
  end.

Definition sort_by_key {A : Type} (key : A -> F) (l : list A) : list A :=
  foldr (insert_by_key key) [] l.

(** Ascending by key. *)
Definition by_key {A : Type} (key : A -> F) (a b : A) : Prop :=
  f_le (key a) (key b) = true.

(** The filter of the query of [find_available_drivers]. *)
Definition is_available_driver (vt : VehicleType) (d : Driver.t F) : bool :=
  bool_decide (Driver.status d = AVAILABLE)
  && bool_decide (Driver.approval_status d = APPROVED)
  && bool_decide (Driver.vehicle_type d = vt)
  && bool_decide (is_Some (Driver.current_latitude d))
  && bool_decide (is_Some (Driver.current_longitude d)).

Definition driver_location (d : Driver.t F) : list (F * F * Z) :=
  match Driver.current_latitude d, Driver.current_longitude d with
  | Some lat, Some lon => [(lat, lon, Driver.id d)]
  | _, _ => []
  end.

Definition suitable_driver (drivers : list (Driver.t F)) (distance_info : DistanceInfo.t F)
    : list (Candidate.t F) :=
  if f_le (DistanceInfo.distance_km distance_info) (f_of_int MAX_DISTANCE_KM) then
    match List.find (fun d => bool_decide (Driver.id d = DistanceInfo.driver_id distance_info))
                    drivers with
    | Some driver =>
        [Candidate.mk (Driver.id driver) driver
           (DistanceInfo.distance_km distance_info)
           (DistanceInfo.duration_minutes distance_info)]
    | None => []
    end
  else [].

(** [None] stands for the [AttributeError] of [getattr]. *)
Definition find_available_drivers (db : DB F) (vehicle_type : string)
    (pickup_location : F * F) : option (list (Candidate.t F)) :=
  match VehicleType_getattr (upper vehicle_type) with
  | None => None
  | Some vt =>
      let drivers := List.filter (is_available_driver vt) (drivers db) in
      match drivers with
      | [] => Some []
      | _ =>
          let driver_locations := flat_map driver_location drivers in
          let distances :=
            calculate_drivers_distances get_distance_and_duration
              calculate_haversine_distance pickup_location driver_locations in
          let suitable_drivers := flat_map (suitable_driver drivers) distances in
          Some (take MAX_DRIVERS_TO_NOTIFY
                  (sort_by_key Candidate.distance_km suitable_drivers))
      end
  end.

Definition create_order_notifications (db : DB F) (order_id : Z)
    (driver_distances : list (Candidate.t F)) : DB F :=
  mkDB (orders db) (drivers db)
    (order_notifications db ++
     List.map (fun driver_info =>
                 OrderNotification.mk order_id (Candidate.driver_id driver_info)
                   None None (Candidate.distance_km driver_info))
              driver_distances).

Definition get_drivers_for_notification (db : DB F) (order : Order.t F)
    : option (list (Candidate.t F) * DB F) :=
  let pickup_location := (Order.pickup_latitude order, Order.pickup_longitude order) in
  let weight := Order.weight_kg order in
  let value := Order.value order in
  let vehicle_type := get_best_vehicle_type_for_order weight value in
  match find_available_drivers db vehicle_type pickup_location with
  | None => None
  | Some suitable_drivers =>
      match suitable_drivers with
      | [] => Some (suitable_drivers, db)
      | _ => Some (suitable_drivers,
                   create_order_notifications db (Order.id order) suitable_drivers)
      end
  end.
End Selection.

(* ================================================================= *)
(** ** The database session *)

(** A SQLAlchemy [Session] in one transaction: the committed tables, the
    tables as the transaction sees them (its own pending writes applied),
    and how many statements were sent and clock readings taken so far. *)
Record Session {F : Type} := mkSession {
  committed : DB F;
  data : DB F;
  calls : nat;
  reads : nat;
}.
Arguments Session : clear implicits.
Arguments mkSession {F}.

(** What a block of Python leaves behind: a value, or a raised exception. *)
Inductive Outcome (A : Type) := Return (a : A) | Raise.
Arguments Return {A}.
Arguments Raise {A}.

Definition Tx (F A : Type) : Type := Session F -> Outcome A * Session F.

#[export] Instance Tx_ret {F} : MRet (Tx F) := fun A a s => (Return a, s).
#[export] Instance Tx_bind {F} : MBind (Tx F) := fun A B f m s =>
  match m s with
  | (Return a, s') => f a s'
  | (Raise, s') => (Raise, s')
  end.

Definition no_faults : nat -> bool := fun _ => false.

Section SessionOps.
Context {F : Type}.

(** [fails k]: the [k]-th statement of the session raises (connection
    lost, time-out, ...).  [utcnow k]: the [k]-th reading of
    [datetime.utcnow()]. *)
Variable fails : nat -> bool.
Variable utcnow : nat -> Z.

Definition begin (db : DB F) : Session F := mkSession db db 0 0.

Definition execute : Tx F unit := fun s =>
  let s' := mkSession (committed s) (data s) (S (calls s)) (reads s) in
  if fails (calls s) then (Raise, s') else (Return (), s').

Definition now : Tx F Z := fun s =>
  (Return (utcnow (reads s)),
   mkSession (committed s) (data s) (calls s) (S (reads s))).

Definition get_data : Tx F (DB F) := fun s => (Return (data s), s).

Definition set_data (f : DB F -> DB F) : Tx F unit := fun s =>
  (Return (), mkSession (committed s) (f (data s)) (calls s) (reads s)).

(** [db.commit()] and [db.rollback()] *)
Definition publish : Tx F unit := fun s =>
  (Return (), mkSession (data s) (data s) (calls s) (reads s)).

Definition commit : Tx F unit := execute ;; publish.

Definition rollback (s : Session F) : Session F :=
  mkSession (committed s) (committed s) (calls s) (reads s).

(** [db.query(T).filter(P).first()]: position and value of the first
    matching row. [db.query(T).filter(P).all()]: the positions of all
    matching rows. *)
Definition query_first {A : Type} (table : DB F -> list A)
    (P : A -> Prop) `{!forall x, Decision (P x)} : Tx F (option (nat * A)) :=
  execute ;; db ← get_data; mret (list_find P (table db)).

Fixpoint positions_from {A : Type} (P : A -> Prop) `{!forall x, Decision (P x)}
    (i : nat) (l : list A) : list nat :=
  match l with
  | [] => []
  | x :: l' =>
      if decide (P x) then i :: positions_from P (S i) l'
      else positions_from P (S i) l'
  end.

Definition query_all {A : Type} (table : DB F -> list A)
    (P : A -> Prop) `{!forall x, Decision (P x)} : Tx F (list nat) :=
  execute ;; db ← get_data; mret (positions_from P 0 (table db)).

(** Attribute assignments on a loaded row. *)
Definition update_order (i : nat) (f : Order.t F -> Order.t F) : Tx F unit :=
  set_data (fun db => mkDB (alter f i (orders db)) (drivers db) (order_notifications db)).

Definition update_driver (j : nat) (f : Driver.t F -> Driver.t F) : Tx F unit :=
  set_data (fun db => mkDB (orders db) (alter f j (drivers db)) (order_notifications db)).

Definition update_notification (k : nat)
    (f : OrderNotification.t F -> OrderNotification.t F) : Tx F unit :=
  set_data (fun db => mkDB (orders db) (drivers db) (alter f k (order_notifications db))).

Fixpoint for_each {A : Type} (l : list A) (body : A -> Tx F unit) : Tx F unit :=
  match l with
  | [] => mret ()
  | x :: l' => body x ;; for_each l' body
  end.

Definition set_assigned (driver_id : Z) (t : Z) (o : Order.t F) : Order.t F :=
  Order.mk (Order.id o) (Some driver_id) (Order.pickup_latitude o)
    (Order.pickup_longitude o) (Order.weight_kg o) (Order.value o)
    ASSIGNED (Some t).

Definition set_status (st : DriverStatus) (d : Driver.t F) : Driver.t F :=
  Driver.mk (Driver.id d) (Driver.vehicle_type d) (Driver.current_latitude d)
    (Driver.current_longitude d) st (Driver.approval_status d).

Definition set_response (r : string) (t : Z) (n : OrderNotification.t F)
    : OrderNotification.t F :=
  OrderNotification.mk (OrderNotification.order_id n) (OrderNotification.driver_id n)
    (Some r) (Some t) (OrderNotification.distance_km n).
End SessionOps.

(** The session after one more statement. *)
Definition bump {F : Type} (s : Session F) : Session F :=
  mkSession (committed s) (data s) (S (calls s)) (reads s).

(** [ns'] is [ns] with the rows at the positions [ks] answered [expired],
    each at some instant. *)
Definition expired {F : Type} (ks : list nat) (ns ns' : list (OrderNotification.t F)) : Prop :=
  List.length ns' = List.length ns
  /\ (forall k, k ∉ ks -> ns' !! k = ns !! k)
  /\ (forall k, k ∈ ks -> exists t, ns' !! k = set_response "expired" t <$> ns !! k).

(* ================================================================= *)
(** ** services/assignment_service.py: assignment and rejection *)

Section Filters.
Context {F : Type}.

(** [Order.id == order_id, Order.status == OrderStatus.PENDING] *)
Definition is_pending_order (order_id : Z) (o : Order.t F) : Prop :=
  Order.id o = order_id /\ Order.status o = PENDING.

(** [Driver.id == driver_id, Driver.status == AVAILABLE,
    Driver.approval_status == APPROVED] *)
Definition is_free_driver (driver_id : Z) (d : Driver.t F) : Prop :=
  Driver.id d = driver_id /\ Driver.status d = AVAILABLE
  /\ Driver.approval_status d = APPROVED.

(** [OrderNotification.order_id == order_id,
    OrderNotification.driver_id == driver_id] *)
Definition is_offer (order_id driver_id : Z) (n : OrderNotification.t F) : Prop :=
  OrderNotification.order_id n = order_id /\ OrderNotification.driver_id n = driver_id.

(** [OrderNotification.order_id == order_id,
    OrderNotification.driver_id != driver_id,
    OrderNotification.response.is_(None)] *)
Definition is_other_offer (order_id driver_id : Z) (n : OrderNotification.t F) : Prop :=
  OrderNotification.order_id n = order_id /\ OrderNotification.driver_id n <> driver_id
  /\ OrderNotification.response n = None.

#[export] Instance is_pending_order_dec order_id o : Decision (is_pending_order order_id o).
Proof. unfold is_pending_order. apply _. Defined.
#[export] Instance is_free_driver_dec driver_id d : Decision (is_free_driver driver_id d).
Proof. unfold is_free_driver. apply _. Defined.
#[export] Instance is_offer_dec order_id driver_id n : Decision (is_offer order_id driver_id n).
Proof. unfold is_offer. apply _. Defined.
#[export] Instance is_other_offer_dec order_id driver_id n :
  Decision (is_other_offer order_id driver_id n).
Proof. unfold is_other_offer. apply _. Defined.
End Filters.

(** What a successful assignment does to the offers: the driver's own
    offer (the first one the query finds) is accepted at instant [t1],
    the unanswered offers of the other drivers are expired, every other
    row is left alone. *)
Definition offers_settled {F : Type} (order_id driver_id : Z) (t1 : Z)
    (ns ns' : list (OrderNotification.t F)) : Prop :=
  List.length ns' = List.length ns
  /\ forall k n, ns !! k = Some n ->
       exists n', ns' !! k = Some n'
         /\ (list_find (is_offer order_id driver_id) ns = Some (k, n) ->
             n' = set_response "accepted" t1 n)
         /\ (is_other_offer order_id driver_id n ->
             exists t, n' = set_response "expired" t n)
         /\ (list_find (is_offer order_id driver_id) ns <> Some (k, n) ->
             ~ is_other_offer order_id driver_id n -> n' = n).

Section Assignment.
Context {F : Type}.
Variable fails : nat -> bool.
Variable utcnow : nat -> Z.

(** The two [SELECT ... FOR UPDATE] queries. In one session alone the
    lock is always granted. *)
Definition select_order_for_update (order_id : Z) : Tx F (option (nat * Order.t F)) :=
  query_first fails orders (is_pending_order order_id).

Definition select_driver_for_update (driver_id : Z) : Tx F (option (nat * Driver.t F)) :=
  query_first fails drivers (is_free_driver driver_id).

(** The body of the [try] once both rows are held: the order is row [i],
    the driver row [j]. *)
Definition accept_offer (notification : option (nat * OrderNotification.t F)) : Tx F unit :=
  match notification with
  | Some (k, _) => t ← now utcnow; update_notification k (set_response "accepted" t)
  | None => mret ()
  end.

Definition expire_offer (k : nat) : Tx F unit :=
  t ← now utcnow; update_notification k (set_response "expired" t).

Definition assign_locked (i j : nat) (order_id driver_id : Z) : Tx F bool :=
  t ← now utcnow;
  update_order i (set_assigned driver_id t) ;;
  update_driver j (set_status BUSY) ;;
  notification ← query_first fails order_notifications (is_offer order_id driver_id);
  accept_offer notification ;;
  other_notifications ←
    query_all fails order_notifications (is_other_offer order_id driver_id);
  for_each other_notifications expire_offer ;;
  commit fails ;;
  mret true.

Definition assign_body (order_id driver_id : Z) : Tx F bool :=
  order ← select_order_for_update order_id;
  match order with
  | None => mret false
  | Some (i, _) =>
      driver ← select_driver_for_update driver_id;
      match driver with
      | None => mret false
      | Some (j, _) => assign_locked i j order_id driver_id
      end
  end.

(** [True] is the spec's [Assigned], [False] its [AlreadyTaken]. The
    second component is the committed database the call leaves. *)
Definition assign_order_to_first_accepter (db : DB F) (order_id driver_id : Z)
    : bool * DB F :=
  match assign_body order_id driver_id (begin db) with
  | (Return b, s) => (b, committed s)
  | (Raise, s) => (false, committed (rollback s))
  end.

Definition reject_body (order_id driver_id : Z) : Tx F unit :=
  notification ← query_first fails order_notifications (is_offer order_id driver_id);
  match notification with
  | Some (k, _) =>
      t ← now utcnow;
      update_notification k (set_response "rejected" t) ;;
      commit fails
  | None => mret ()
  end.

(** [reject_order] has no handler: an exception of the session reaches
    the caller. *)
Definition reject_order (db : DB F) (order_id driver_id : Z) : Outcome unit * DB F :=
  let '(r, s) := reject_body order_id driver_id (begin db) in (r, committed s).
End Assignment.

(* ================================================================= *)
(** ** Two requests racing for one order *)

(** Modelled from the spec: the row locks of the persistence collaborator
    (the database engine behind [with_for_update()], and the request
    scope that closes the session, are not part of the sources). Section
    6 asks for a row-level exclusive-lock read: read, then prevent other
    exclusive readers until this transaction ends; section 4.2 says the
    locked read only matches rows that still satisfy the filter, so a
    reader that had to wait evaluates the filter on the row as the
    winner committed it. A lock table maps a row to the session holding
    it; commit, rollback and closing the session release what the
    session holds. *)
Inductive Sid := SidA | SidB.

#[export] Instance Sid_eq_dec : EqDecision Sid.
Proof. solve_decision. Defined.

Definition acquire (locks : gmap nat Sid) (row : nat) (x : Sid) : option (gmap nat Sid) :=
  match locks !! row with
  | Some y => if decide (y = x) then Some locks else None
  | None => Some (<[row := x]> locks)
  end.

Definition release (locks : gmap nat Sid) (x : Sid) : gmap nat Sid :=
  filter (fun kv => kv.2 <> x) locks.

(** Where a request stands in [assign_order_to_first_accepter]: before
    the locked read of the order, before the locked read of the driver
    (order row [i] held), before the writes (both rows held), returned to
    its caller, and with its session closed. *)
Inductive Pc :=
  | AtSelectOrder
  | AtSelectDriver (i : nat)
  | AtAssign (i j : nat)
  | Returned (b : bool)
  | Closed (b : bool).

Record World {F : Type} := mkWorld {
  store : DB F;
  order_locks : gmap nat Sid;
  driver_locks : gmap nat Sid;
  pc_a : Pc;
  pc_b : Pc;
}.
Arguments World : clear implicits.
Arguments mkWorld {F}.

Section Race.
Context {F : Type}.
Variable utcnow : Sid -> nat -> Z.
Variable order_id : Z.
Variable driver_of : Sid -> Z.

Definition pc_of (x : Sid) (w : World F) : Pc :=
  match x with SidA => pc_a w | SidB => pc_b w end.

Definition goto (x : Sid) (pc : Pc) (st : DB F) (ol dl : gmap nat Sid) (w : World F)
    : World F :=
  match x with
  | SidA => mkWorld st ol dl pc (pc_b w)
  | SidB => mkWorld st ol dl (pc_a w) pc
  end.

(** One move of request [x]; [None] when it waits for a lock or is over. *)
Definition step (x : Sid) (w : World F) : option (World F) :=
  match pc_of x w with
  | AtSelectOrder =>
      match list_find (is_pending_order order_id) (orders (store w)) with
      | None => Some (goto x (Returned false) (store w) (order_locks w) (driver_locks w) w)
      | Some (i, _) =>
          ol ← acquire (order_locks w) i x;
          Some (goto x (AtSelectDriver i) (store w) ol (driver_locks w) w)
      end
  | AtSelectDriver i =>
      match list_find (is_free_driver (driver_of x)) (drivers (store w)) with
      | None => Some (goto x (Returned false) (store w) (order_locks w) (driver_locks w) w)
      | Some (j, _) =>
          dl ← acquire (driver_locks w) j x;
          Some (goto x (AtAssign i j) (store w) (order_locks w) dl w)
      end
  | AtAssign i j =>
      match assign_locked no_faults (utcnow x) i j order_id (driver_of x)
              (begin (store w)) with
      | (Return b, s) =>
          Some (goto x (Returned b) (committed s)
                  (release (order_locks w) x) (release (driver_locks w) x) w)
      | (Raise, s) =>
          Some (goto x (Returned false) (committed (rollback s))
                  (release (order_locks w) x) (release (driver_locks w) x) w)
      end
  | Returned b =>
      Some (goto x (Closed b) (store w)
              (release (order_locks w) x) (release (driver_locks w) x) w)
  | Closed _ => None
  end.

Definition steps (w w' : World F) : Prop := exists x, step x w = Some w'.

Definition start (db : DB F) : World F :=
  mkWorld db ∅ ∅ AtSelectOrder AtSelectOrder.

(** What [assign_order_to_first_accepter] returned, once it has. *)
Definition result (pc : Pc) : option bool :=
  match pc with
  | Returned b | Closed b => Some b
  | _ => None
  end.

Definition rank (pc : Pc) : nat :=
  match pc with
  | AtSelectOrder => 4
  | AtSelectDriver _ => 3
  | AtAssign _ _ => 2
  | Returned _ => 1
  | Closed _ => 0
  end.
End Race.

(** Runs a schedule, skipping the moves that are not enabled. *)
Fixpoint run {F : Type} (utcnow : Sid -> nat -> Z) (order_id : Z) (driver_of : Sid -> Z)
    (schedule : list Sid) (w : World F) : World F :=
  match schedule with
  | [] => w
  | x :: rest =>
      run utcnow order_id driver_of rest
        (default w (step utcnow order_id driver_of x w))
  end.

(** The worlds a race between two free drivers for one pending order can
    be in. [db0] is the database when the race starts, [i] the row of the
    order, [row x] the row of the driver of request [x]. *)
Section RaceInvariant.
Context {F : Type}.
Variable utcnow : Sid -> nat -> Z.
Variable driver_of : Sid -> Z.
Variable db0 : DB F.
Variable i : nat.
Variable row : Sid -> nat.

Definition other (x : Sid) : Sid := match x with SidA => SidB | SidB => SidA end.

(** The world in which [x] stands at [pcx] and the other request at [pcy]. *)
Definition world_of (x : Sid) (pcx pcy : Pc) (st : DB F) (ol dl : gmap nat Sid)
    : World F :=
  match x with
  | SidA => mkWorld st ol dl pcx pcy
  | SidB => mkWorld st ol dl pcy pcx
  end.

(** The database once [x] has committed its assignment. *)
Definition won (x : Sid) (st : DB F) : Prop :=
  exists ns',
    st = mkDB (alter (set_assigned (driver_of x) (utcnow x 0%nat)) i (orders db0))
              (alter (set_status BUSY) (row x) (drivers db0)) ns'.

Inductive race_inv : World F -> Prop :=
  | race_start :
      race_inv (mkWorld db0 ∅ ∅ AtSelectOrder AtSelectOrder)
  | race_order x :
      race_inv (world_of x (AtSelectDriver i) AtSelectOrder db0 {[i := x]} ∅)
  | race_both x :
      race_inv (world_of x (AtAssign i (row x)) AtSelectOrder db0
                  {[i := x]} {[row x := x]})
  | race_won x st pcx pcy :
      won x st ->
      result pcx = Some true ->
      pcy = AtSelectOrder \/ result pcy = Some false ->
      race_inv (world_of x pcx pcy st ∅ ∅).
End RaceInvariant.

(* ================================================================= *)
(** ** websocket_manager.py *)

(** A [WebSocket] object is known by its identity; a message by the text
    [json.dumps] produced. *)
Record ConnectionManager := mkManager {
  active_connections : gmap Z nat;     (* driver_id: websocket *)
  driver_connections : gmap nat Z;     (* websocket: driver_id *)
}.

Definition new_manager : ConnectionManager := mkManager ∅ ∅.

(** [connect], once [websocket.accept()] has returned. *)
Definition connect (m : ConnectionManager) (websocket : nat) (driver_id : Z)
    : ConnectionManager :=
  mkManager (<[driver_id := websocket]> (active_connections m))
            (<[websocket := driver_id]> (driver_connections m)).

(** [disconnect]; [Raise] is the [KeyError] of the first [del], which
    leaves both dictionaries as they were. *)
Definition disconnect (m : ConnectionManager) (websocket : nat)
    : Outcome ConnectionManager :=
  match driver_connections m !! websocket with
  | Some driver_id =>
      match active_connections m !! driver_id with
      | Some _ =>
          Return (mkManager (delete driver_id (active_connections m))
                            (delete websocket (driver_connections m)))
      | None => Raise
      end
  | None => Return m
  end.

(** [send_personal_message]: [send_text ws] tells whether the write on
    [ws] succeeds. The result is the returned flag, the manager
    afterwards, and the channels the text was written to. *)
Definition send_personal_message (send_text : nat -> bool) (m : ConnectionManager)
    (message : string) (driver_id : Z)
    : Outcome bool * ConnectionManager * list (nat * string) :=
  match active_connections m !! driver_id with
  | Some websocket =>
      if send_text websocket then (Return true, m, [(websocket, message)])
      else
        match disconnect m websocket with
        | Return m' => (Return false, m', [])
        | Raise => (Raise, m, [])
        end
  | None => (Return false, m, [])
  end.

(** The two dictionaries describe the same set of connections. *)
Definition consistent (m : ConnectionManager) : Prop :=
  forall driver_id websocket,
    active_connections m !! driver_id = Some websocket <->
    driver_connections m !! websocket = Some driver_id.

(* ================================================================= *)
(** ** Candidate selection, in the words of the specification *)

(** Section 4.2 of the specification describes [selectCandidates] as
    six steps. They are written down here as they are worded, to be
    compared with [get_drivers_for_notification]. *)
Section SelectionSpec.
Context {F : Type} `{PyFloat F}.
Variable get_distance_and_duration : nat -> F * F -> F * F -> option (RouteInfo.t F).
Variable calculate_haversine_distance : F * F -> F * F -> F.

(** Step 1: the weight ladder; a missing weight counts as light. *)
Definition spec_required_class (weight : option F) : VehicleType :=
  match weight with
  | None => MOTORCYCLE
  | Some w =>
      if f_le w (f_of_int 5) then MOTORCYCLE
      else if f_le w (f_of_int 50) then CAR
      else if f_le w (f_of_int 200) then VAN
      else TRUCK
  end.

(** Step 2: available, approved, of the required class, position known. *)
Definition spec_eligible (vt : VehicleType) (d : Driver.t F) : Prop :=
  Driver.status d = AVAILABLE
  /\ Driver.approval_status d = APPROVED
  /\ Driver.vehicle_type d = vt
  /\ is_Some (Driver.current_latitude d)
  /\ is_Some (Driver.current_longitude d).

#[export] Instance spec_eligible_dec vt d : Decision (spec_eligible vt d).
Proof. unfold spec_eligible. apply _. Defined.

Definition last_position (d : Driver.t F) : option (F * F * Z) :=
  lat ← Driver.current_latitude d;
  lon ← Driver.current_longitude d;
  Some (lat, lon, Driver.id d).

Definition with_estimate (d : Driver.t F) (e : DistanceInfo.t F) : Candidate.t F :=
  Candidate.mk (Driver.id d) d (DistanceInfo.distance_km e)
    (DistanceInfo.duration_minutes e).

(** Steps 3 and 4: the batch estimate from the pickup point to each
    eligible driver, and the service radius of 50 km. *)
Definition spec_in_range (db : DB F) (order : Order.t F) : list (Candidate.t F) :=
  let fleet :=
    filter (spec_eligible (spec_required_class (Order.weight_kg order))) (drivers db) in
  let estimates :=
    calculate_drivers_distances get_distance_and_duration calculate_haversine_distance
      (Order.pickup_latitude order, Order.pickup_longitude order)
      (omap last_position fleet) in
  filter (fun c => f_le (Candidate.distance_km c) (f_of_int 50) = true)
         (zip_with with_estimate fleet estimates).

(** Step 5: ascending by distance. *)
Definition closer (a b : Candidate.t F) : Prop :=
  f_le (Candidate.distance_km a) (Candidate.distance_km b) = true.

(** Step 6: the offer record of a candidate. *)
Definition spec_offer (order_id : Z) (c : Candidate.t F) : OrderNotification.t F :=
  OrderNotification.mk order_id (Candidate.driver_id c) None None
    (Candidate.distance_km c).
End SelectionSpec.

(* ================================================================= *)
(** ** A scenario *)

(** The end-to-end scenario of the specification, over the rationals:
    one pending order with pickup at (40, -73) and three approved car
    drivers. *)
Definition clock (start : Z) : nat -> Z := fun k => start + Z.of_nat k.

Definition car_driver (id : Z) (lat lon : Q) (st : DriverStatus) : Driver.t Q :=
  Driver.mk id CAR (Some lat) (Some lon) st APPROVED.

Definition order1 : Order.t Q :=
  Order.mk 1 None (40 # 1) (-73 # 1) (Some (10 # 1)) None PENDING None.

Definition fleet : list (Driver.t Q) :=
  [car_driver 1 (4001 # 100) (-73 # 1) AVAILABLE;
   car_driver 2 (4005 # 100) (-73 # 1) AVAILABLE;
   car_driver 3 (4050 # 100) (-73 # 1) AVAILABLE].

Definition offer (driver_id : Z) (km : Q) : OrderNotification.t Q :=
  OrderNotification.mk 1 driver_id None None km.

Definition db_open : DB Q :=
  mkDB [order1] fleet [offer 1 (2 # 1); offer 2 (8 # 1)].

(** The same database once driver 1 has won the order. *)
Definition db_taken : DB Q :=
  snd (assign_order_to_first_accepter no_faults (clock 1000) db_open 1 1).

(** A session whose commit, the fifth statement of an assignment, fails. *)
Definition commit_fails : nat -> bool := fun k => Nat.eqb k 4.

(** The same fleet before any offer was made, and the routing service
    reporting 2 km, 8 km and 60 km for the three drivers. *)
Definition db_new : DB Q := mkDB [order1] fleet [].

Definition reported (k : nat) (_ _ : Q * Q) : option (RouteInfo.t Q) :=
  match k with
  | 0%nat => Some (RouteInfo.mk (2 # 1) (5 # 1))
  | 1%nat => Some (RouteInfo.mk (8 # 1) (15 # 1))
  | _ => Some (RouteInfo.mk (60 # 1) (70 # 1))
  end.

(** Two drivers racing: request [SidA] is driver 1, request [SidB] is
    driver 2. *)
Definition racers (x : Sid) : Z := match x with SidA => 1 | SidB => 2 end.

Definition race_clock (x : Sid) : nat -> Z :=
  match x with SidA => clock 1000 | SidB => clock 2000 end.

(** The open order with no driver free any more. *)
Definition db_busy : DB Q :=
  mkDB [order1]
       [car_driver 1 (4001 # 100) (-73 # 1) BUSY;
        car_driver 2 (4005 # 100) (-73 # 1) OFFLINE]
       [offer 1 (2 # 1); offer 2 (8 # 1)].

Definition racer_row (x : Sid) : nat := match x with SidA => 0%nat | SidB => 1%nat end.

Definition racer_driver (x : Sid) : Driver.t Q :=
  match x with
  | SidA => car_driver 1 (4001 # 100) (-73 # 1) AVAILABLE
  | SidB => car_driver 2 (4005 # 100) (-73 # 1) AVAILABLE
  end.

(** Request A takes both locks and commits while request B waits, then B
    reads the order again. *)
Definition a_first : list Sid := [SidA; SidB; SidA; SidB; SidA; SidA; SidB; SidB].

(** Each request in turn, to its end. *)
Definition a_then_b : list Sid := [SidA; SidA; SidA; SidB; SidB; SidB].

(* ================================================================= *)
(** ** websocket_manager.py: fan-out *)

(** [notify_drivers_about_order]: [message] is the text [json.dumps]
    makes of the notification. The loop sends to each driver in turn on
    the manager as the sends before left it; an exception of a send ends
    the loop and reaches the caller. The result is the list of drivers
    reached, the manager afterwards and the channels written to. *)
Fixpoint notify_drivers_about_order (send_text : nat -> bool) (m : ConnectionManager)
    (message : string) (driver_ids : list Z)
    : Outcome (list Z) * ConnectionManager * list (nat * string) :=
  match driver_ids with
  | [] => (Return [], m, [])
  | driver_id :: rest =>
      match send_personal_message send_text m message driver_id with
      | (Return success, m1, wire1) =>
          match notify_drivers_about_order send_text m1 message rest with
          | (Return successful_notifications, m2, wire2) =>
              (Return (if success then driver_id :: successful_notifications
                       else successful_notifications),
               m2, (wire1 ++ wire2)%list)
          | (Raise, m2, wire2) => (Raise, m2, (wire1 ++ wire2)%list)
          end
      | (Raise, m1, wire1) => (Raise, m1, wire1)
      end
  end.

(** [is_driver_connected] *)
Definition is_driver_connected (m : ConnectionManager) (driver_id : Z) : bool :=
  bool_decide (is_Some (active_connections m !! driver_id)).

(* ================================================================= *)
(** ** osrm_client.py: the haversine argument *)

(** The value bound to [a] in [calculate_haversine_distance], the
    argument of [math.sqrt] and, through it, of [math.asin]. *)
Definition haversine_a (point1 point2 : R * R) : R :=
  let '(lat1, lon1) := point1 in
  let '(lat2, lon2) := point2 in
  (sin ((radians lat2 - radians lat1) / 2) ^ 2
   + cos (radians lat1) * cos (radians lat2)
     * sin ((radians lon2 - radians lon1) / 2) ^ 2)%R.

(* ================================================================= *)
(** ** main.py: the endpoints of a driver *)

(** What an endpoint hands back: a raised [HTTPException], a returned
    message, or an exception that no handler catches. The two status
    messages are kept as the values they are formatted from. *)
Inductive Response :=
  | HTTPException (status_code : Z)
  | Message (text : string)
  | OrderStatusUpdated (old_status new_status : OrderStatus)
  | DriverStatusUpdated (new_status : DriverStatus)
  | Uncaught.

(** [send_order_status_update]: [dumps] is [json.dumps] of the message it
    builds from the order, the status and the text. *)
Definition send_order_status_update (send_text : nat -> bool)
    (dumps : Z -> string -> string -> string) (m : ConnectionManager)
    (driver_id order_id : Z) (status message : string)
    : Outcome bool * ConnectionManager * list (nat * string) :=
  send_personal_message send_text m (dumps order_id status message) driver_id.

Section Endpoints.
Context {F : Type}.
Variable fails : nat -> bool.
Variable utcnow : nat -> Z.

(** In the three endpoints [j] is the row that [get_current_driver]
    found for the caller; without such a row it raises 404. *)
Definition accept_order (send_text : nat -> bool) (dumps : Z -> string -> string -> string)
    (db : DB F) (m : ConnectionManager) (order_id : Z) (j : nat)
    : Response * DB F * ConnectionManager * list (nat * string) :=
  match drivers db !! j with
  | None => (HTTPException 404, db, m, [])
  | Some current_driver =>
      if negb (bool_decide (Driver.approval_status current_driver = APPROVED))
      then (HTTPException 403, db, m, [])
      else if negb (bool_decide (Driver.status current_driver = AVAILABLE))
      then (HTTPException 400, db, m, [])
      else
        let '(success, db') :=
          assign_order_to_first_accepter fails utcnow db order_id
            (Driver.id current_driver) in
        if success then
          match send_order_status_update send_text dumps m (Driver.id current_driver)
                  order_id "assigned" "Order assigned successfully" with
          | (Return _, m', wire) => (Message "Order accepted successfully", db', m', wire)
          | (Raise, m', wire) => (Uncaught, db', m', wire)
          end
        else (Message "Order no longer available", db', m, [])
  end.

(** [OrderModel.id == order_id, OrderModel.driver_id == current_driver.id] *)
Definition is_order_of (order_id driver_id : Z) (o : Order.t F) : Prop :=
  Order.id o = order_id /\ Order.driver_id o = Some driver_id.

#[export] Instance is_order_of_dec order_id driver_id o :
  Decision (is_order_of order_id driver_id o).
Proof. unfold is_order_of. apply _. Defined.

Definition set_order_status (st : OrderStatus) (o : Order.t F) : Order.t F :=
  Order.mk (Order.id o) (Order.driver_id o) (Order.pickup_latitude o)
    (Order.pickup_longitude o) (Order.weight_kg o) (Order.value o)
    st (Order.assigned_at o).

(** [update_order_status]. The columns [picked_up_at] and [delivered_at]
    are not among the columns kept in [Order.t]: what is written to them
    is returned beside the response, as column name and instant. *)
Definition stamp_status (new_status : OrderStatus) (j : nat) (t : Z)
    : Tx F (list (string * Z)) :=
  match new_status with
  | IN_PROGRESS => mret [("picked_up_at", t)]
  | DELIVERED => update_driver j (set_status AVAILABLE) ;; mret [("delivered_at", t)]
  | _ => mret []
  end.

Definition update_order_status_body (order_id : Z) (new_status : OrderStatus) (j : nat)
    (current_driver : Driver.t F) : Tx F (Response * list (string * Z)) :=
  order ← query_first fails orders (is_order_of order_id (Driver.id current_driver));
  match order with
  | None => mret (HTTPException 404, [])
  | Some (i, o) =>
      let old_status := Order.status o in
      update_order i (set_order_status new_status) ;;
      t ← now utcnow;
      stamps ← stamp_status new_status j t;
      commit fails ;;
      mret (OrderStatusUpdated old_status new_status, stamps)
  end.

Definition update_order_status (db : DB F) (order_id : Z) (new_status : OrderStatus)
    (j : nat) : Response * list (string * Z) * DB F :=
  match drivers db !! j with
  | None => (HTTPException 404, [], db)
  | Some current_driver =>
      match update_order_status_body order_id new_status j current_driver (begin db) with
      | (Return (response, stamps), s) => (response, stamps, committed s)
      | (Raise, s) => (Uncaught, [], committed s)
      end
  end.

Definition update_driver_status_body (new_status : DriverStatus) (j : nat)
    (current_driver : Driver.t F) : Tx F Response :=
  if negb (bool_decide (Driver.approval_status current_driver = APPROVED))
  then mret (HTTPException 403)
  else
    update_driver j (set_status new_status) ;;
    commit fails ;;
    mret (DriverStatusUpdated new_status).

Definition update_driver_status (db : DB F) (new_status : DriverStatus) (j : nat)
    : Response * DB F :=
  match drivers db !! j with
  | None => (HTTPException 404, db)
  | Some current_driver =>
      match update_driver_status_body new_status j current_driver (begin db) with
      | (Return response, s) => (response, committed s)
      | (Raise, s) => (Uncaught, committed s)
      end
  end.
End Endpoints.

(* ================================================================= *)
(** * Properties *)

(* ----------------------------------------------------------------- *)
(** ** The rationals as numbers *)

#[export] Instance Q_float_order : PyFloatOrder Q.
Proof.
  split; simpl.
  - intros a b. rewrite !Qle_bool_iff. destruct (Qlt_le_dec a b) as [Hlt | Hle].
    + left. now apply Qlt_le_weak.
    + now right.
  - intros a b c. rewrite !Qle_bool_iff. apply Qle_trans.
  - reflexivity.
  - intros m n. destruct (Z.leb_spec m n) as [Hle | Hlt].
    + apply Qle_bool_iff. now rewrite <- Zle_Qle.
    + apply not_true_is_false. rewrite Qle_bool_iff, <- Zle_Qle. lia.
Qed.

Section FloatFacts.
Context {F : Type} `{PyFloatOrder F}.

Lemma f_lt_true (a b : F) : f_lt a b = true -> f_le b a = false.
Proof. rewrite f_lt_le. now destruct (f_le b a). Qed.

Lemma f_le_false_trans (w : F) (m n : Z) :
  (m <= n)%Z -> f_le w (f_of_int n) = false -> f_le w (f_of_int m) = false.
Proof.
  intros Hmn Hn. destruct (f_le w (f_of_int m)) eqn:Hm; [| reflexivity].
  rewrite (f_le_trans w (f_of_int m) (f_of_int n)) in Hn; [discriminate | assumption |].
  rewrite f_of_int_le. now apply Z.leb_le.
Qed.

Lemma f_le_refl (a : F) : f_le a a = true.
Proof. now destruct (f_le_total a a). Qed.
End FloatFacts.

(* ----------------------------------------------------------------- *)
(** ** Vehicle class of an order *)

(** The four names the ladder returns are members of [VehicleType]. *)
Lemma vehicle_type_names :
  VehicleType_getattr (upper "motorcycle") = Some MOTORCYCLE
  /\ VehicleType_getattr (upper "car") = Some CAR
  /\ VehicleType_getattr (upper "van") = Some VAN
  /\ VehicleType_getattr (upper "truck") = Some TRUCK.
Proof. repeat split; reflexivity. Qed.

(** C6. The vehicle class follows the weight ladder: at most 5 gives
    motorcycle, above 5 and at most 50 gives car, above 50 and at most
    200 gives van, above 200 gives truck; an order without weight is
    taken for a light one and gives motorcycle. *)
Theorem vehicle_type_ladder {F : Type} `{PyFloatOrder F} (w : F) (value : option F) :
  (f_le w (f_of_int 5) = true ->
     get_best_vehicle_type_for_order (Some w) value = "motorcycle")
  /\ (f_lt (f_of_int 5) w = true -> f_le w (f_of_int 50) = true ->
     get_best_vehicle_type_for_order (Some w) value = "car")
  /\ (f_lt (f_of_int 50) w = true -> f_le w (f_of_int 200) = true ->
     get_best_vehicle_type_for_order (Some w) value = "van")
  /\ (f_lt (f_of_int 200) w = true ->
     get_best_vehicle_type_for_order (Some w) value = "truck")
  /\ get_best_vehicle_type_for_order None value = "motorcycle"
  /\ get_best_vehicle_type_for_order None value
     = get_best_vehicle_type_for_order (Some (f_of_int 1)) value.
Proof.
  unfold get_best_vehicle_type_for_order.
  refine (conj _ (conj _ (conj _ (conj _ (conj _ _))))).
  - now intros ->.
  - intros H5%f_lt_true H50. now rewrite H5, H50.
  - intros H50%f_lt_true H200.
    rewrite (f_le_false_trans w 5 50), H50, H200 by (lia || assumption). reflexivity.
  - intros H200%f_lt_true.
    rewrite (f_le_false_trans w 5 200), (f_le_false_trans w 50 200), H200
      by (lia || assumption).
    reflexivity.
  - now rewrite f_of_int_le.
  - reflexivity.
Qed.

Lemma vehicle_type_ladder_witness :
  get_best_vehicle_type_for_order (Some (5 # 1)%Q) None = "motorcycle"
  /\ get_best_vehicle_type_for_order (Some (501 # 100)%Q) None = "car"
  /\ get_best_vehicle_type_for_order (Some (50 # 1)%Q) None = "car"
  /\ get_best_vehicle_type_for_order (Some (200 # 1)%Q) None = "van"
  /\ get_best_vehicle_type_for_order (Some (401 # 2)%Q) None = "truck".
Proof.
  refine (conj _ (conj _ (conj _ (conj _ _)))).
  - apply (vehicle_type_ladder (5 # 1)%Q None). reflexivity.
  - apply (vehicle_type_ladder (501 # 100)%Q None); reflexivity.
  - apply (vehicle_type_ladder (50 # 1)%Q None); reflexivity.
  - apply (vehicle_type_ladder (200 # 1)%Q None); reflexivity.
  - apply (vehicle_type_ladder (401 # 2)%Q None); reflexivity.
Defined.

(* ----------------------------------------------------------------- *)
(** ** The fallback estimate *)

Lemma PI_bounds : (3.13 < PI < 3.15)%R.
Proof.
  pose proof (PI_2_3_7_ineq 0) as [Hlo _].
  pose proof (PI_2_3_7_ineq 1) as [_ Hhi].
  unfold sum_f_R0, tg_alt, PI_2_3_7_tg, Ratan_seq in Hlo, Hhi.
  simpl in Hlo, Hhi.
  split; lra.
Qed.

Lemma haversine_same_point (p : R * R) : calculate_haversine_distance p p = 0%R.
Proof.
  destruct p as [lat lon]. unfold calculate_haversine_distance.
  replace ((radians lat - radians lat) / 2)%R with 0%R by lra.
  replace ((radians lon - radians lon) / 2)%R with 0%R by lra.
  rewrite sin_0.
  replace (0 ^ 2 + cos (radians lat) * cos (radians lat) * 0 ^ 2)%R with 0%R by (simpl; lra).
  rewrite sqrt_0, asin_0. lra.
Qed.

Lemma haversine_one_degree :
  calculate_haversine_distance (0, 0)%R (0, 1)%R = (PI / 180 * 6371)%R.
Proof.
  pose proof PI_bounds as [Hlo Hhi].
  unfold calculate_haversine_distance, radians.
  replace ((0 * (PI / 180) - 0 * (PI / 180)) / 2)%R with 0%R by lra.
  replace ((1 * (PI / 180) - 0 * (PI / 180)) / 2)%R with (PI / 360)%R by lra.
  replace (0 * (PI / 180))%R with 0%R by lra.
  rewrite sin_0, cos_0.
  replace (0 ^ 2 + 1 * 1 * sin (PI / 360) ^ 2)%R with (sin (PI / 360) ^ 2)%R by (simpl; lra).
  rewrite sqrt_pow2 by (apply sin_ge_0; lra).
  rewrite asin_sin by (split; lra).
  lra.
Qed.

Lemma fallback_entry (oracle : nat -> R * R -> R * R -> option (RouteInfo.t R))
    (pickup : R * R) (locations : list (R * R * Z)) :
  forall (k n : nat) (lat lon : R) (driver_id : Z),
    locations !! n = Some (lat, lon, driver_id) ->
    oracle (k + n)%nat pickup (lat, lon) = None ->
    calculate_drivers_distances_from oracle calculate_haversine_distance k pickup locations !! n
    = Some (DistanceInfo.mk driver_id
              (calculate_haversine_distance pickup (lat, lon))
              (calculate_haversine_distance pickup (lat, lon) * 2)%R).
Proof.
  induction locations as [| [[lat0 lon0] id0] rest IH]; intros k n lat lon driver_id Hn Hfail.
  - discriminate.
  - destruct n as [| n]; simpl in *.
    + injection Hn as -> -> ->. rewrite Nat.add_0_r in Hfail. now rewrite Hfail.
    + apply IH; [assumption |].
      replace (S k + n)%nat with (k + S n)%nat by lia. assumption.
Qed.

(** C7. When the routing service fails for a driver of the batch, the
    entry of that driver carries the haversine distance (radius 6371 km,
    degrees turned into radians) and twice that distance as minutes, so
    10 km gives 20 minutes; the haversine distance of a point to itself is
    0 and that between (0,0) and (0,1) is within 0.5 km of 111.19 km. *)
Theorem haversine_fallback :
  (forall oracle pickup locations n lat lon driver_id,
      locations !! n = Some (lat, lon, driver_id) ->
      oracle n pickup (lat, lon) = None ->
      exists entry,
        calculate_drivers_distances oracle calculate_haversine_distance pickup locations !! n
        = Some entry
        /\ DistanceInfo.driver_id entry = driver_id
        /\ DistanceInfo.distance_km entry = calculate_haversine_distance pickup (lat, lon)
        /\ DistanceInfo.duration_minutes entry = (DistanceInfo.distance_km entry * 2)%R
        /\ (DistanceInfo.distance_km entry = 10%R ->
            DistanceInfo.duration_minutes entry = 20%R))
  /\ (forall p, calculate_haversine_distance p p = 0%R)
  /\ (Rabs (calculate_haversine_distance (0, 0)%R (0, 1)%R - 111.19) <= 0.5)%R.
Proof.
  split; [| split].
  - intros oracle pickup locations n lat lon driver_id Hn Hfail.
    eexists. split; [now apply (fallback_entry oracle pickup locations 0 n lat lon driver_id) |].
    simpl. repeat split. intros ->. lra.
  - exact haversine_same_point.
  - rewrite haversine_one_degree. pose proof PI_bounds as [Hlo Hhi].
    apply Rabs_le. split; lra.
Qed.

Lemma haversine_fallback_witness :
  exists entry,
    calculate_drivers_distances (fun _ _ _ => None) calculate_haversine_distance
      (0, 0)%R [(0, 1, 7%Z)]%R !! 0%nat = Some entry
    /\ DistanceInfo.driver_id entry = 7%Z
    /\ DistanceInfo.duration_minutes entry = (DistanceInfo.distance_km entry * 2)%R.
Proof.
  destruct (proj1 haversine_fallback (fun _ _ _ => None) (0, 0)%R [(0, 1, 7%Z)]%R
              0%nat 0%R 1%R 7%Z eq_refl eq_refl) as (entry & He & Hid & _ & Hdur & _).
  exists entry. repeat split; assumption.
Defined.

(* ----------------------------------------------------------------- *)
(** ** Running the session *)

Section SessionFacts.
Context {F : Type}.
Implicit Types (s : Session F) (ns : list (OrderNotification.t F)).

Lemma query_first_run fails {A : Type} (table : DB F -> list A) (P : A -> Prop)
    `{!forall x, Decision (P x)} s :
  query_first fails table P s
  = if fails (calls s) then (Raise, bump s)
    else (Return (list_find P (table (data s))), bump s).
Proof.
  unfold query_first, mbind, Tx_bind, execute, get_data, mret, Tx_ret, bump.
  now destruct (fails (calls s)).
Qed.

Lemma query_all_run fails {A : Type} (table : DB F -> list A) (P : A -> Prop)
    `{!forall x, Decision (P x)} s :
  query_all fails table P s
  = if fails (calls s) then (Raise, bump s)
    else (Return (positions_from P 0 (table (data s))), bump s).
Proof.
  unfold query_all, mbind, Tx_bind, execute, get_data, mret, Tx_ret, bump.
  now destruct (fails (calls s)).
Qed.

Lemma commit_run fails s :
  commit fails s
  = if fails (calls s) then (Raise, bump s)
    else (Return (), mkSession (data s) (data s) (S (calls s)) (reads s)).
Proof.
  unfold commit, mbind, Tx_bind, execute, publish.
  now destruct (fails (calls s)).
Qed.

Lemma positions_from_spec {A : Type} (P : A -> Prop) `{!forall x, Decision (P x)}
    (l : list A) :
  forall i k, k ∈ positions_from P i l <->
              (i <= k)%nat /\ exists x, l !! (k - i)%nat = Some x /\ P x.
Proof.
  induction l as [| y l IH]; intros i k; simpl.
  - rewrite elem_of_nil. split; [tauto | now intros (_ & x & Hx & _)].
  - assert (Htail : k ∈ positions_from P (S i) l <->
                    (i < k)%nat /\ exists x, (y :: l) !! (k - i)%nat = Some x /\ P x).
    { rewrite IH. split.
      - intros (Hle & x & Hx & HP). split; [lia |]. exists x. split; [| assumption].
        replace (k - i)%nat with (S (k - S i)) by lia. assumption.
      - intros (Hlt & x & Hx & HP). split; [lia |]. exists x. split; [| assumption].
        replace (k - i)%nat with (S (k - S i)) in Hx by lia. assumption. }
    destruct (decide (P y)) as [Hy | Hy].
    + rewrite elem_of_cons, Htail. split.
      * intros [-> | (Hlt & Hx)]; [| split; [lia | assumption]].
        split; [lia |]. exists y. now rewrite Nat.sub_diag.
      * intros (Hle & x & Hx & HP).
        destruct (decide (k = i)) as [-> | Hne]; [now left | right].
        split; [lia |]. now exists x.
    + rewrite Htail. split.
      * intros (Hlt & Hx). split; [lia | assumption].
      * intros (Hle & x & Hx & HP).
        destruct (decide (k = i)) as [-> | Hne].
        -- rewrite Nat.sub_diag in Hx. simpl in Hx. congruence.
        -- split; [lia |]. now exists x.
Qed.

Lemma positions_spec {A : Type} (P : A -> Prop) `{!forall x, Decision (P x)}
    (l : list A) (k : nat) :
  k ∈ positions_from P 0 l <-> exists x, l !! k = Some x /\ P x.
Proof.
  rewrite positions_from_spec, Nat.sub_0_r. split; [tauto | split; [lia | assumption]].
Qed.

(** The loop that expires the other offers sends no statement, so it
    cannot fail; it rewrites exactly the listed rows. *)
Lemma for_each_expire utcnow (ks : list nat) :
  forall s, exists ns' r,
    for_each ks (expire_offer utcnow) s
    = (Return (),
       mkSession (committed s)
         (mkDB (orders (data s)) (drivers (data s)) ns') (calls s) r)
    /\ expired ks (order_notifications (data s)) ns'.
Proof.
  induction ks as [| k0 ks IH]; intros s.
  - exists (order_notifications (data s)), (reads s). split.
    + simpl. unfold mret, Tx_ret. now destruct s as [c [o d n] k r].
    + split; [reflexivity |]. split; [reflexivity |]. intros k Hk. inversion Hk.
  - simpl. unfold mbind at 1. unfold Tx_bind.
    unfold expire_offer at 1. unfold mbind at 1. unfold Tx_bind, now.
    unfold update_notification, set_data. simpl.
    match goal with |- context [for_each ks _ ?s1] => destruct (IH s1) as (ns' & r & -> & Hlen & Hout & Hin) end.
    simpl in *. exists ns', r. split; [reflexivity |].
    split; [| split].
    + now rewrite Hlen, length_alter.
    + intros k Hk. apply not_elem_of_cons in Hk as [Hne Hk].
      rewrite (Hout k Hk). now apply list_lookup_alter_ne.
    + intros k Hk. destruct (decide (k ∈ ks)) as [Hks | Hks].
      * destruct (Hin k Hks) as [t Ht]. exists t. rewrite Ht.
        destruct (decide (k = k0)) as [-> | Hne].
        -- rewrite list_lookup_alter_eq. now destruct (order_notifications (data s) !! k0).
        -- now rewrite list_lookup_alter_ne.
      * apply elem_of_cons in Hk as [-> | Hk]; [| contradiction].
        exists (utcnow (reads s)). rewrite (Hout k0 Hks). apply list_lookup_alter_eq.
Qed.
End SessionFacts.

(* ----------------------------------------------------------------- *)
(** ** The assignment transaction *)

Lemma bind_run {F A B : Type} (m : Tx F A) (f : A -> Tx F B) (s : Session F) :
  (m ≫= f) s
  = match m s with
    | (Return a, s') => f a s'
    | (Raise, s') => (Raise, s')
    end.
Proof. reflexivity. Qed.

Section AssignmentFacts.
Context {F : Type}.
Implicit Types (s : Session F) (ns : list (OrderNotification.t F)) (db : DB F).

Lemma settle_found order_id driver_id t1 ns ns' k n :
  list_find (is_offer order_id driver_id) ns = Some (k, n) ->
  expired
    (positions_from (is_other_offer order_id driver_id) 0
       (alter (set_response "accepted" t1) k ns))
    (alter (set_response "accepted" t1) k ns) ns' ->
  offers_settled order_id driver_id t1 ns ns'.
Proof.
  intros Hfind (Hlen & Hout & Hin).
  pose proof Hfind as (Hk & [Hoid Hdid] & _)%list_find_Some.
  split; [now rewrite Hlen, length_alter |].
  intros m x Hm. destruct (decide (m = k)) as [-> | Hne].
  - assert (x = n) as -> by congruence.
    exists (set_response "accepted" t1 n). split.
    + rewrite Hout; [now rewrite list_lookup_alter_eq, Hk |].
      rewrite positions_spec. intros (y & Hy & _ & Hyd & _).
      rewrite list_lookup_alter_eq, Hk in Hy. injection Hy as <-. now apply Hyd.
    + split; [reflexivity |]. split.
      * intros (_ & Hd & _). contradiction.
      * intros Hnot _. contradiction.
  - assert (Hm1 : alter (set_response "accepted" t1) k ns !! m = Some x)
      by now rewrite list_lookup_alter_ne.
    destruct (decide (is_other_offer order_id driver_id x)) as [Hx | Hx].
    + destruct (Hin m) as [t Ht]; [apply positions_spec; eauto |].
      rewrite Hm1 in Ht. exists (set_response "expired" t x).
      split; [assumption |]. split; [| split].
      * intros Heq. congruence.
      * intros _. now exists t.
      * intros _ Hnot. contradiction.
    + exists x. split.
      * rewrite Hout; [assumption |].
        rewrite positions_spec. intros (y & Hy & HP). congruence.
      * split; [intros Heq; congruence |]. split; [intros Hy; contradiction | reflexivity].
Qed.

Lemma settle_missing order_id driver_id t1 ns ns' :
  list_find (is_offer order_id driver_id) ns = None ->
  expired (positions_from (is_other_offer order_id driver_id) 0 ns) ns ns' ->
  offers_settled order_id driver_id t1 ns ns'.
Proof.
  intros Hfind (Hlen & Hout & Hin). split; [assumption |].
  intros m x Hm.
  destruct (decide (is_other_offer order_id driver_id x)) as [Hx | Hx].
  - destruct (Hin m) as [t Ht]; [apply positions_spec; eauto |].
    rewrite Hm in Ht. exists (set_response "expired" t x).
    split; [assumption |]. split; [| split].
    + intros Heq. congruence.
    + intros _. now exists t.
    + intros _ Hnot. contradiction.
  - exists x. split.
    + rewrite Hout; [assumption |].
      rewrite positions_spec. intros (y & Hy & HP). congruence.
    + split; [intros Heq; congruence |]. split; [intros Hy; contradiction | reflexivity].
Qed.

(** The part of the transaction that runs with both rows held either
    commits everything or raises with nothing committed. *)
Lemma assign_locked_run fails utcnow (i j : nat) (order_id driver_id : Z) s :
  exists ns' r',
    offers_settled order_id driver_id (utcnow (S (reads s)))
      (order_notifications (data s)) ns'
    /\ let D := mkDB (alter (set_assigned driver_id (utcnow (reads s))) i (orders (data s)))
                     (alter (set_status BUSY) j (drivers (data s))) ns' in
       if fails (calls s) || fails (S (calls s)) || fails (S (S (calls s)))
       then exists s', assign_locked fails utcnow i j order_id driver_id s = (Raise, s')
                       /\ committed s' = committed s
       else assign_locked fails utcnow i j order_id driver_id s
            = (Return true, mkSession D D (S (S (S (calls s)))) r').
Proof.
  destruct s as [c0 [os ds ns] c r]. simpl.
  set (P := is_offer (F:=F) order_id driver_id).
  set (Q := is_other_offer (F:=F) order_id driver_id).
  remember (assign_locked fails utcnow i j order_id driver_id
              (mkSession c0 (mkDB os ds ns) c r)) as X eqn:HX.
  unfold assign_locked in HX.
  rewrite bind_run in HX. unfold now at 1 in HX. simpl in HX.
  rewrite bind_run in HX. unfold update_order, set_data at 1 in HX. simpl in HX.
  rewrite bind_run in HX. unfold update_driver, set_data at 1 in HX. simpl in HX.
  rewrite bind_run, query_first_run in HX. simpl in HX.
  fold P Q in HX.
  destruct (list_find P ns) as [[k n] |] eqn:Hfind.
  - set (ns1 := alter (set_response "accepted" (utcnow (S r))) k ns).
    destruct (for_each_expire utcnow (positions_from Q 0 ns1)
                (mkSession c0 (mkDB (alter (set_assigned driver_id (utcnow r)) i os)
                                    (alter (set_status BUSY) j ds) ns1)
                   (S (S c)) (S (S r)))) as (ns' & r' & Hloop & Hexp).
    simpl in Hloop, Hexp.
    exists ns', r'. split; [now apply (settle_found _ _ _ _ _ k n) |].
    destruct (fails c) eqn:E0; simpl; [exists (snd X); now rewrite HX |].
    rewrite bind_run in HX. unfold accept_offer in HX.
    rewrite bind_run in HX. unfold now at 1 in HX. simpl in HX.
    rewrite bind_run, query_all_run in HX. simpl in HX. fold ns1 in HX.
    destruct (fails (S c)) eqn:E1; simpl; [exists (snd X); now rewrite HX |].
    unfold bump in HX. simpl in HX.
    rewrite bind_run, Hloop, bind_run, commit_run in HX. simpl in HX.
    destruct (fails (S (S c))) eqn:E2; simpl; [exists (snd X); now rewrite HX |].
    exact HX.
  - destruct (for_each_expire utcnow (positions_from Q 0 ns)
                (mkSession c0 (mkDB (alter (set_assigned driver_id (utcnow r)) i os)
                                    (alter (set_status BUSY) j ds) ns)
                   (S (S c)) (S r))) as (ns' & r' & Hloop & Hexp).
    simpl in Hloop, Hexp.
    exists ns', r'. split; [now apply settle_missing |].
    destruct (fails c) eqn:E0; simpl; [exists (snd X); now rewrite HX |].
    rewrite bind_run in HX. unfold accept_offer in HX. unfold mret at 1 in HX.
    unfold Tx_ret at 1 in HX.
    rewrite bind_run, query_all_run in HX. simpl in HX.
    destruct (fails (S c)) eqn:E1; simpl; [exists (snd X); now rewrite HX |].
    unfold bump in HX. simpl in HX.
    rewrite bind_run, Hloop, bind_run, commit_run in HX. simpl in HX.
    destruct (fails (S (S c))) eqn:E2; simpl; [exists (snd X); now rewrite HX |].
    exact HX.
Qed.
End AssignmentFacts.

Section AssignmentTheorems.
Context {F : Type}.
Implicit Types (db : DB F).

Lemma assign_body_run fails utcnow (order_id driver_id : Z) db :
  assign_body fails utcnow order_id driver_id (begin db)
  = if fails 0%nat then (Raise, bump (begin db))
    else match list_find (is_pending_order order_id) (orders db) with
         | None => (Return false, bump (begin db))
         | Some (i, _) =>
             if fails 1%nat then (Raise, bump (bump (begin db)))
             else match list_find (is_free_driver driver_id) (drivers db) with
                  | None => (Return false, bump (bump (begin db)))
                  | Some (j, _) =>
                      assign_locked fails utcnow i j order_id driver_id
                        (bump (bump (begin db)))
                  end
         end.
Proof.
  unfold assign_body, select_order_for_update, select_driver_for_update.
  rewrite bind_run, query_first_run. simpl.
  destruct (fails 0%nat); [reflexivity |].
  destruct (list_find _ (orders db)) as [[i o] |]; [| reflexivity].
  rewrite bind_run, query_first_run. simpl.
  destruct (fails 1%nat); [reflexivity |].
  now destruct (list_find _ (drivers db)) as [[j d] |].
Qed.

(** Whatever fails and whenever, the call either returns [True] or
    leaves the committed database as it found it. *)
Lemma assign_all_or_nothing fails utcnow (order_id driver_id : Z) db :
  forall r s,
    assign_body fails utcnow order_id driver_id (begin db) = (r, s) ->
    r = Return true \/ (r <> Return true /\ committed s = db).
Proof.
  intros r s. rewrite assign_body_run.
  destruct (fails 0%nat); [intros [= <- <-]; right; now split |].
  destruct (list_find _ (orders db)) as [[i o] |];
    [| intros [= <- <-]; right; now split].
  destruct (fails 1%nat); [intros [= <- <-]; right; now split |].
  destruct (list_find _ (drivers db)) as [[j d] |];
    [| intros [= <- <-]; right; now split].
  destruct (assign_locked_run fails utcnow i j order_id driver_id (bump (bump (begin db))))
    as (ns' & r' & _ & Hrun).
  simpl in Hrun.
  destruct (fails 2%nat || fails 3%nat || fails 4%nat).
  - destruct Hrun as (s' & -> & Hc). intros [= <- <-]. right. now split.
  - rewrite Hrun. intros [= <- <-]. now left.
Qed.

(** C3. When no pending row of that order exists, or no available and
    approved row of that driver, the call returns [False] (AlreadyTaken)
    and the orders, the drivers and the offers are what they were. *)
Theorem assign_already_taken fails utcnow db (order_id driver_id : Z) :
  (forall o, o ∈ orders db -> ~ is_pending_order order_id o)
  \/ (forall d, d ∈ drivers db -> ~ is_free_driver driver_id d) ->
  assign_order_to_first_accepter fails utcnow db order_id driver_id = (false, db).
Proof.
  intros Hno. unfold assign_order_to_first_accepter. rewrite assign_body_run.
  destruct (fails 0%nat); [reflexivity |].
  destruct (list_find _ (orders db)) as [[i o] |] eqn:Ho; [| reflexivity].
  destruct (fails 1%nat); [reflexivity |].
  destruct (list_find _ (drivers db)) as [[j d] |] eqn:Hd; [| reflexivity].
  apply list_find_Some in Ho as (Ho & HPo & _).
  apply list_find_Some in Hd as (Hd & HPd & _).
  destruct Hno as [Hno | Hno].
  - destruct (Hno o); [eapply list_elem_of_lookup_2, Ho | assumption].
  - destruct (Hno d); [eapply list_elem_of_lookup_2, Hd | assumption].
Qed.


(** C4, as the code has it. A failure of the session at any statement of
    the transaction is rolled back: nothing of the order, the driver or
    the offers is committed, and the caller receives [False], the same
    value as for a lost race. More generally a call that returns [False]
    has committed nothing. *)
Theorem assign_failure_rolls_back fails utcnow db (order_id driver_id : Z) :
  (forall s, assign_body fails utcnow order_id driver_id (begin db) = (Raise, s) ->
             assign_order_to_first_accepter fails utcnow db order_id driver_id
             = (false, db))
  /\ (fst (assign_order_to_first_accepter fails utcnow db order_id driver_id) = false ->
      snd (assign_order_to_first_accepter fails utcnow db order_id driver_id) = db).
Proof.
  unfold assign_order_to_first_accepter. split.
  - intros s Hs. rewrite Hs. simpl.
    destruct (assign_all_or_nothing _ _ _ _ _ _ _ Hs) as [[=] | [_ ->]]. reflexivity.
  - destruct (assign_body fails utcnow order_id driver_id (begin db)) as [r s] eqn:Hs.
    destruct (assign_all_or_nothing _ _ _ _ _ _ _ Hs) as [-> | [Hr Hc]].
    + simpl. discriminate.
    + destruct r as [b |]; simpl; intros Hb; [assumption | assumption].
Qed.
End AssignmentTheorems.

(* ----------------------------------------------------------------- *)
(** ** Rejection *)

Section RejectionTheorems.
Context {F : Type}.
Implicit Types (db : DB F) (ns : list (OrderNotification.t F)).

Lemma reject_order_run fails utcnow db (order_id driver_id : Z) :
  reject_order fails utcnow db order_id driver_id
  = if fails 0%nat then (Raise, db)
    else match list_find (is_offer order_id driver_id) (order_notifications db) with
         | None => (Return (), db)
         | Some (k, _) =>
             if fails 1%nat then (Raise, db)
             else (Return (),
                   mkDB (orders db) (drivers db)
                     (alter (set_response "rejected" (utcnow 0%nat)) k
                        (order_notifications db)))
         end.
Proof.
  unfold reject_order, reject_body. rewrite bind_run, query_first_run. simpl.
  destruct (fails 0%nat); [reflexivity |].
  destruct (list_find _ _) as [[k n] |]; [| reflexivity].
  rewrite bind_run. unfold now at 1. simpl.
  rewrite bind_run. unfold update_notification, set_data at 1. simpl.
  rewrite commit_run. simpl. now destruct (fails 1%nat).
Qed.

Lemma list_find_alter_keep {A : Type} (P : A -> Prop) `{!forall x, Decision (P x)}
    (f : A -> A) (l : list A) (k : nat) (x : A) :
  (forall y, P y -> P (f y)) ->
  list_find P l = Some (k, x) ->
  list_find P (alter f k l) = Some (k, f x).
Proof.
  intros Hf (Hk & HP & Hbefore)%list_find_Some. apply list_find_Some.
  split; [now rewrite list_lookup_alter_eq, Hk |]. split; [now apply Hf |].
  intros j y Hj Hlt. rewrite list_lookup_alter_ne in Hj by lia. now apply (Hbefore j).
Qed.

(** C10. Without an offer of that order to that driver, rejecting
    creates no offer and changes no order and no driver; unless the
    query itself fails, no exception reaches the caller. *)
Theorem reject_without_offer fails utcnow db (order_id driver_id : Z) :
  (forall n, n ∈ order_notifications db -> ~ is_offer order_id driver_id n) ->
  snd (reject_order fails utcnow db order_id driver_id) = db
  /\ (fails 0%nat = false ->
      reject_order fails utcnow db order_id driver_id = (Return (), db)).
Proof.
  intros Hno. rewrite reject_order_run.
  assert (Hfind : list_find (is_offer order_id driver_id) (order_notifications db) = None).
  { apply list_find_None, Forall_forall. exact Hno. }
  rewrite Hfind. split; [now destruct (fails 0%nat) | now intros ->].
Qed.

(** C8, as the code has it. Rejecting writes [rejected] and the instant
    of the call into the driver's offer for the order (the first row
    the query finds), whatever that offer answered before; it changes no
    order, no driver and no other offer. Rejecting a second time leaves
    what a single rejection at the instant of the second call leaves. *)
Theorem reject_overwrites utcnow utcnow' db (order_id driver_id : Z) :
  exists db1,
    reject_order no_faults utcnow db order_id driver_id = (Return (), db1)
    /\ orders db1 = orders db
    /\ drivers db1 = drivers db
    /\ (forall k n,
          list_find (is_offer order_id driver_id) (order_notifications db) = Some (k, n) ->
          order_notifications db1
          = <[k := set_response "rejected" (utcnow 0%nat) n]> (order_notifications db))
    /\ (list_find (is_offer order_id driver_id) (order_notifications db) = None ->
        db1 = db)
    /\ reject_order no_faults utcnow' db1 order_id driver_id
       = reject_order no_faults utcnow' db order_id driver_id.
Proof.
  rewrite (reject_order_run no_faults utcnow db). simpl.
  destruct (list_find _ (order_notifications db)) as [[k n] |] eqn:Hfind.
  - eexists. split; [reflexivity |]. simpl.
    split; [reflexivity |]. split; [reflexivity |]. split; [| split; [discriminate |]].
    + intros k' n' [= <- <-]. apply list_find_Some in Hfind as (Hk & _).
      apply list_eq. intros m. destruct (decide (m = k)) as [-> | Hne].
      * rewrite list_lookup_alter_eq, Hk, list_lookup_insert_eq; [reflexivity |].
        now apply lookup_lt_Some in Hk.
      * now rewrite list_lookup_alter_ne, list_lookup_insert_ne.
    + rewrite !reject_order_run. simpl.
      rewrite (list_find_alter_keep _ (set_response "rejected" (utcnow 0%nat)) _ k n),
        Hfind; [| now intros y [? ?] | assumption].
      f_equal. f_equal. rewrite list_alter_alter_eq. now apply list_alter_ext.
  - exists db.
    refine (conj eq_refl (conj eq_refl (conj eq_refl (conj _ (conj _ eq_refl)))));
      [discriminate | reflexivity].
Qed.
End RejectionTheorems.

(* ----------------------------------------------------------------- *)
(** ** The scenario, assigned and rejected *)

Lemma db_taken_eq :
  db_taken
  = mkDB [Order.mk 1 (Some 1) (40 # 1) (-73 # 1) (Some (10 # 1)) None ASSIGNED (Some 1000)]
         [car_driver 1 (4001 # 100) (-73 # 1) BUSY;
          car_driver 2 (4005 # 100) (-73 # 1) AVAILABLE;
          car_driver 3 (4050 # 100) (-73 # 1) AVAILABLE]
         [OrderNotification.mk 1 1 (Some "accepted") (Some 1001) (2 # 1);
          OrderNotification.mk 1 2 (Some "expired") (Some 1002) (8 # 1)].
Proof. reflexivity. Qed.


Lemma assign_already_taken_witness :
  assign_order_to_first_accepter no_faults (clock 2000) db_taken 1 2 = (false, db_taken).
Proof.
  apply (assign_already_taken no_faults (clock 2000) db_taken 1 2).
  left. intros o Ho. rewrite db_taken_eq in Ho. simpl in Ho.
  apply list_elem_of_singleton in Ho as ->. intros [_ Hst]. discriminate.
Defined.

Lemma assign_failure_rolls_back_witness :
  assign_order_to_first_accepter commit_fails (clock 1000) db_open 1 1 = (false, db_open).
Proof.
  eapply (proj1 (assign_failure_rolls_back commit_fails (clock 1000) db_open 1 1)).
  vm_compute. reflexivity.
Defined.

(** C4, the counterexample: a commit that fails and a lost race hand the
    caller the same value; the first is told apart from the second by
    nothing the call returns. *)
Lemma persistence_failure_not_distinct :
  (exists s, assign_body commit_fails (clock 1000) 1 1 (begin db_open) = (Raise, s))
  /\ fst (assign_order_to_first_accepter commit_fails (clock 1000) db_open 1 1)
     = fst (assign_order_to_first_accepter no_faults (clock 2000) db_taken 1 2).
Proof.
  split; [eexists; vm_compute; reflexivity | reflexivity].
Qed.

Lemma reject_without_offer_witness :
  snd (reject_order no_faults (clock 2000) db_open 1 3) = db_open
  /\ (no_faults 0%nat = false ->
      reject_order no_faults (clock 2000) db_open 1 3 = (Return (), db_open)).
Proof.
  apply (reject_without_offer no_faults (clock 2000) db_open 1 3).
  intros n Hn. simpl in Hn.
  apply elem_of_cons in Hn as [-> | Hn]; [intros [_ Hd]; discriminate |].
  apply list_elem_of_singleton in Hn as ->. intros [_ Hd]. discriminate.
Defined.

(** C8, the counterexample: driver 2 rejects after the order went to
    driver 1; the offer of driver 2, already answered [expired], is
    rewritten to [rejected] with a new instant. A second rejection, later,
    changes the instant again. *)
Lemma reject_rewrites_answered_offer :
  order_notifications db_taken !! 1%nat
  = Some (OrderNotification.mk 1 2 (Some "expired") (Some 1002) (8 # 1))
  /\ order_notifications (snd (reject_order no_faults (clock 2000) db_taken 1 2)) !! 1%nat
     = Some (OrderNotification.mk 1 2 (Some "rejected") (Some 2000) (8 # 1))
  /\ snd (reject_order no_faults (clock 2000) db_taken 1 2) <> db_taken
  /\ snd (reject_order no_faults (clock 3000)
            (snd (reject_order no_faults (clock 2000) db_taken 1 2)) 1 2)
     <> snd (reject_order no_faults (clock 2000) db_taken 1 2).
Proof.
  split; [reflexivity |]. split; [reflexivity |]. split; intros Heq.
  - apply (f_equal (fun db => OrderNotification.response <$> order_notifications db !! 1%nat))
      in Heq.
    vm_compute in Heq. discriminate.
  - apply (f_equal (fun db => OrderNotification.response_at <$> order_notifications db !! 1%nat))
      in Heq.
    vm_compute in Heq. discriminate.
Qed.

Lemma reject_overwrites_witness :
  exists db1,
    reject_order no_faults (clock 2000) db_open 1 2 = (Return (), db1)
    /\ order_notifications db1
       = [offer 1 (2 # 1); OrderNotification.mk 1 2 (Some "rejected") (Some 2000) (8 # 1)]
    /\ reject_order no_faults (clock 3000) db1 1 2
       = reject_order no_faults (clock 3000) db_open 1 2.
Proof.
  destruct (reject_overwrites (clock 2000) (clock 3000) db_open 1 2)
    as (db1 & Hrun & _ & _ & Hfound & _ & Htwice).
  exists db1. split; [assumption |]. split; [| assumption].
  apply (Hfound 1%nat (offer 2 (8 # 1))). reflexivity.
Defined.

(* ----------------------------------------------------------------- *)
(** ** The connection manager *)

Lemma connect_active (m : ConnectionManager) (websocket : nat) (driver_id : Z) :
  active_connections (connect m websocket driver_id) !! driver_id = Some websocket.
Proof. apply lookup_insert_eq. Qed.

(** Registering a driver a second time leaves the entry of the first
    connection in the reverse dictionary. *)
Lemma connect_twice_stale (m : ConnectionManager) (ws1 ws2 : nat) (driver_id : Z) :
  ws1 <> ws2 ->
  driver_connections (connect (connect m ws1 driver_id) ws2 driver_id) !! ws1
  = Some driver_id
  /\ active_connections (connect (connect m ws1 driver_id) ws2 driver_id) !! driver_id
     = Some ws2.
Proof.
  intros Hne. simpl. split.
  - rewrite lookup_insert_ne by congruence. apply lookup_insert_eq.
  - apply lookup_insert_eq.
Qed.

(** Sends go to the connection registered last, and only to it. *)
Lemma send_after_connect_twice (send_text : nat -> bool) (m : ConnectionManager)
    (ws1 ws2 : nat) (driver_id : Z) (message : string) :
  send_text ws2 = true ->
  send_personal_message send_text (connect (connect m ws1 driver_id) ws2 driver_id)
    message driver_id
  = (Return true, connect (connect m ws1 driver_id) ws2 driver_id, [(ws2, message)]).
Proof.
  intros Hok. unfold send_personal_message. now rewrite connect_active, Hok.
Qed.

(** C9, on the code: driver 7 registers connection 1, then connection 2.
    Connection 1 is still in the reverse dictionary, the two dictionaries
    disagree, and when connection 1 is later unregistered it takes the
    forward entry of connection 2 with it: sends to driver 7 are dropped
    although connection 2 is live, and unregistering connection 2 raises
    [KeyError]. *)
Theorem connect_twice_inconsistent :
  let m := connect (connect new_manager 1 7) 2 7 in
  active_connections m !! 7 = Some 2%nat
  /\ driver_connections m !! 1%nat = Some 7
  /\ ~ consistent m
  /\ exists m',
       disconnect m 1 = Return m'
       /\ active_connections m' !! 7 = None
       /\ driver_connections m' !! 2%nat = Some 7
       /\ send_personal_message (fun _ => true) m' "offer" 7 = (Return false, m', [])
       /\ disconnect m' 2 = Raise.
Proof.
  assert (Hstale : driver_connections (connect (connect new_manager 1 7) 2 7) !! 1%nat
                   = Some 7) by (apply connect_twice_stale; lia).
  assert (Hlive : active_connections (connect (connect new_manager 1 7) 2 7) !! 7
                  = Some 2%nat) by apply connect_active.
  simpl. split; [exact Hlive |]. split; [exact Hstale |]. split.
  - intros Hc. apply Hc in Hstale. rewrite Hlive in Hstale. discriminate.
  - unfold disconnect at 1. rewrite Hstale, Hlive. eexists. split; [reflexivity |].
    assert (Hgone : delete 7 (active_connections (connect (connect new_manager 1 7) 2 7)) !! 7
                    = None) by apply lookup_delete_eq.
    assert (Hrev : delete 1%nat (driver_connections (connect (connect new_manager 1 7) 2 7))
                     !! 2%nat = Some 7).
    { rewrite lookup_delete_ne by lia. apply lookup_insert_eq. }
    split; [exact Hgone |]. split; [exact Hrev |]. split.
    + unfold send_personal_message. cbn [active_connections]. now rewrite Hgone.
    + unfold disconnect. cbn [active_connections driver_connections].
      now rewrite Hrev, Hgone.
Qed.

(* ----------------------------------------------------------------- *)
(** ** Candidate selection *)

Section SortFacts.
Context {F : Type} `{PyFloatOrder F} {A : Type}.
Variable key : A -> F.

Lemma insert_by_key_perm (x : A) (l : list A) : insert_by_key key x l ≡ₚ x :: l.
Proof.
  induction l as [| y l IH]; simpl; [reflexivity |].
  destruct (f_lt (key y) (key x)); [| reflexivity].
  rewrite IH. apply Permutation_swap.
Qed.

Lemma sort_by_key_perm (l : list A) : sort_by_key key l ≡ₚ l.
Proof.
  induction l as [| x l IH]; simpl; [reflexivity |].
  unfold sort_by_key in *. simpl. now rewrite insert_by_key_perm, IH.
Qed.

Lemma insert_by_key_sorted (x : A) (l : list A) :
  StronglySorted (by_key key) l -> StronglySorted (by_key key) (insert_by_key key x l).
Proof.
  induction l as [| y l IH]; intros Hs; simpl.
  - repeat constructor.
  - apply StronglySorted_inv in Hs as [Hl Hy].
    destruct (f_lt (key y) (key x)) eqn:Hlt.
    + constructor; [now apply IH |].
      rewrite insert_by_key_perm. constructor; [| assumption].
      apply f_lt_true in Hlt. unfold by_key.
      destruct (f_le_total (key x) (key y)); [congruence | assumption].
    + assert (Hxy : by_key key x y).
      { unfold by_key. rewrite f_lt_le in Hlt. now destruct (f_le (key x) (key y)). }
      constructor; [now constructor |]. constructor; [assumption |].
      eapply Forall_impl; [exact Hy |]. intros z Hz. unfold by_key in *.
      eapply f_le_trans; eassumption.
Qed.

Lemma sort_by_key_sorted (l : list A) : StronglySorted (by_key key) (sort_by_key key l).
Proof.
  induction l as [| x l IH]; [constructor |].
  unfold sort_by_key in *. simpl. now apply insert_by_key_sorted.
Qed.

Lemma take_sorted (n : nat) (l : list A) :
  StronglySorted (by_key key) l -> StronglySorted (by_key key) (take n l).
Proof.
  revert n. induction l as [| x l IH]; intros [| n] Hs; simpl; try constructor.
  - apply StronglySorted_inv in Hs as [Hl _]. now apply IH.
  - apply StronglySorted_inv in Hs as [_ Hx]. now apply Forall_take.
Qed.
End SortFacts.

Section SelectionFacts.
Context {F : Type} `{PyFloatOrder F}.
Variable oracle : nat -> F * F -> F * F -> option (RouteInfo.t F).
Variable haversine : F * F -> F * F -> F.
Implicit Types (d : Driver.t F) (db : DB F) (c : Candidate.t F).

Lemma required_class_name (weight value : option F) :
  VehicleType_getattr (upper (get_best_vehicle_type_for_order weight value))
  = Some (spec_required_class weight).
Proof.
  unfold get_best_vehicle_type_for_order, spec_required_class.
  destruct weight as [w |].
  - destruct (f_le w (f_of_int 5)); [reflexivity |].
    destruct (f_le w (f_of_int 50)); [reflexivity |].
    now destruct (f_le w (f_of_int 200)).
  - now rewrite f_of_int_le.
Qed.

Lemma is_available_driver_spec vt d :
  is_available_driver vt d = true <-> spec_eligible vt d.
Proof.
  unfold is_available_driver, spec_eligible.
  rewrite !andb_true_iff, !bool_decide_eq_true. tauto.
Qed.

Lemma query_drivers vt (l : list (Driver.t F)) :
  List.filter (is_available_driver vt) l = filter (spec_eligible vt) l.
Proof.
  induction l as [| d l IH]; [reflexivity |]. simpl. rewrite filter_cons, IH.
  destruct (decide (spec_eligible vt d)) as [Hd | Hd].
  - apply is_available_driver_spec in Hd. now rewrite Hd.
  - destruct (is_available_driver vt d) eqn:Hb; [| reflexivity].
    apply is_available_driver_spec in Hb. contradiction.
Qed.

Lemma driver_locations (l : list (Driver.t F)) :
  flat_map driver_location l = omap last_position l.
Proof.
  induction l as [| d l IH]; [reflexivity |]. simpl. rewrite IH.
  unfold driver_location, last_position.
  destruct (Driver.current_latitude d), (Driver.current_longitude d); reflexivity.
Qed.

(** The primary key finds the row back. *)
Lemma find_by_id (ds : list (Driver.t F)) d :
  NoDup (Driver.id <$> ds) -> d ∈ ds ->
  List.find (fun x => bool_decide (Driver.id x = Driver.id d)) ds = Some d.
Proof.
  induction ds as [| x ds IH]; intros Hnd Hd; [inversion Hd |].
  rewrite fmap_cons in Hnd. apply NoDup_cons in Hnd as [Hx Hnd]. simpl.
  apply elem_of_cons in Hd as [-> | Hd].
  - now rewrite bool_decide_eq_true_2.
  - rewrite bool_decide_eq_false_2; [now apply IH |].
    intros Heq. apply Hx. rewrite Heq. now apply list_elem_of_fmap_2.
Qed.

Lemma suitable_drivers_spec (ds : list (Driver.t F)) vt pickup :
  NoDup (Driver.id <$> ds) ->
  forall (l : list (Driver.t F)) (k : nat),
    (forall d, d ∈ l -> d ∈ ds /\ spec_eligible vt d) ->
    flat_map (suitable_driver ds)
      (calculate_drivers_distances_from oracle haversine k pickup (omap last_position l))
    = filter (fun c => f_le (Candidate.distance_km c) (f_of_int 50) = true)
        (zip_with with_estimate l
           (calculate_drivers_distances_from oracle haversine k pickup
              (omap last_position l))).
Proof.
  intros Hnd. induction l as [| d l IH]; intros k Hl; [reflexivity |].
  destruct (Hl d) as (Hd & _ & _ & _ & [lat Hlat] & [lon Hlon]); [left |].
  assert (Hpos : last_position d = Some (lat, lon, Driver.id d)).
  { unfold last_position. now rewrite Hlat, Hlon. }
  simpl. rewrite Hpos. simpl.
  rewrite IH by (intros d' Hd'; apply Hl; now right).
  rewrite filter_cons.
  set (entry := match oracle k pickup (lat, lon) with
                | Some route_info => _ | None => _ end).
  assert (Hid : DistanceInfo.driver_id entry = Driver.id d).
  { unfold entry. now destruct (oracle k pickup (lat, lon)). }
  unfold suitable_driver at 1. rewrite Hid, (find_by_id ds d Hnd Hd).
  unfold MAX_DISTANCE_KM. simpl.
  destruct (f_le (DistanceInfo.distance_km entry) (f_of_int 50)) eqn:Hle.
  - rewrite decide_True by reflexivity. reflexivity.
  - rewrite decide_False by discriminate. reflexivity.
Qed.

Lemma find_available_drivers_spec db (order : Order.t F) :
  NoDup (Driver.id <$> drivers db) ->
  find_available_drivers oracle haversine db
    (get_best_vehicle_type_for_order (Order.weight_kg order) (Order.value order))
    (Order.pickup_latitude order, Order.pickup_longitude order)
  = Some (take 5 (sort_by_key Candidate.distance_km
                    (spec_in_range oracle haversine db order))).
Proof.
  intros Hnd. unfold find_available_drivers, spec_in_range.
  rewrite required_class_name, query_drivers.
  set (vt := spec_required_class (Order.weight_kg order)).
  set (fleet := filter (spec_eligible vt) (drivers db)).
  assert (Hfleet : forall d, d ∈ fleet -> d ∈ fleet /\ spec_eligible vt d).
  { intros d Hd. split; [assumption |]. now apply list_elem_of_filter in Hd as [? _]. }
  assert (Hnd' : NoDup (Driver.id <$> fleet)).
  { apply (sublist_NoDup _ (Driver.id <$> drivers db) Hnd).
    apply fmap_sublist. apply sublist_filter. }
  unfold calculate_drivers_distances. rewrite driver_locations.
  rewrite (suitable_drivers_spec fleet vt _ Hnd' fleet 0 Hfleet).
  destruct fleet; reflexivity.
Qed.
End SelectionFacts.

(** C5. With driver identifiers unique (the primary key), the candidates
    of an order are the first five, by ascending distance, of the drivers
    that are available, approved, of the required class and with a known
    position, whose estimated distance from the pickup point is at most
    50 km; one offer with that distance is recorded per candidate, after
    the offers already there; with no candidate the list is empty and the
    database is untouched. *)
Theorem select_candidates {F : Type} `{PyFloatOrder F}
    (oracle : nat -> F * F -> F * F -> option (RouteInfo.t F))
    (haversine : F * F -> F * F -> F) (db : DB F) (order : Order.t F) :
  NoDup (Driver.id <$> drivers db) ->
  exists candidates db' ranked,
    get_drivers_for_notification oracle haversine db order = Some (candidates, db')
    /\ ranked ≡ₚ spec_in_range oracle haversine db order
    /\ StronglySorted closer ranked
    /\ candidates = take 5 ranked
    /\ StronglySorted closer candidates
    /\ (List.length candidates <= 5)%nat
    /\ (forall c, c ∈ candidates ->
          Candidate.driver c ∈ drivers db
          /\ spec_eligible (spec_required_class (Order.weight_kg order)) (Candidate.driver c)
          /\ Candidate.driver_id c = Driver.id (Candidate.driver c)
          /\ f_le (Candidate.distance_km c) (f_of_int 50) = true)
    /\ db' = mkDB (orders db) (drivers db)
               (order_notifications db ++ (spec_offer (Order.id order) <$> candidates))
    /\ (candidates = [] -> db' = db).
Proof.
  intros Hnd.
  set (ranked := sort_by_key Candidate.distance_km (spec_in_range oracle haversine db order)).
  assert (Hperm : ranked ≡ₚ spec_in_range oracle haversine db order)
    by apply sort_by_key_perm.
  assert (Hsorted : StronglySorted closer ranked)
    by apply (sort_by_key_sorted Candidate.distance_km).
  exists (take 5 ranked),
    (mkDB (orders db) (drivers db)
       (order_notifications db ++ (spec_offer (Order.id order) <$> take 5 ranked))),
    ranked.
  split.
  { unfold get_drivers_for_notification. rewrite (find_available_drivers_spec _ _ _ _ Hnd).
    fold ranked. destruct (take 5 ranked) eqn:Htake; [| reflexivity].
    simpl. rewrite app_nil_r. now destruct db. }
  split; [assumption |]. split; [assumption |]. split; [reflexivity |].
  split; [now apply (take_sorted Candidate.distance_km) |].
  split; [rewrite length_take; lia |].
  split.
  { intros c Hc. apply subseteq_take in Hc. rewrite Hperm in Hc.
    unfold spec_in_range in Hc.
    apply list_elem_of_filter in Hc as [Hle Hc].
    apply elem_of_zip_with in Hc as (d & e & -> & Hd & _).
    apply list_elem_of_filter in Hd as [Hel Hd]. simpl. auto. }
  split; [reflexivity |].
  intros ->. simpl. rewrite app_nil_r. now destruct db.
Qed.

Lemma select_candidates_witness :
  exists candidates db',
    get_drivers_for_notification reported (fun _ _ => 0%Q) db_new order1
    = Some (candidates, db')
    /\ Candidate.driver_id <$> candidates = [1; 2]
    /\ Candidate.distance_km <$> candidates = [(2 # 1)%Q; (8 # 1)%Q]
    /\ order_notifications db' = [offer 1 (2 # 1); offer 2 (8 # 1)].
Proof.
  destruct (select_candidates reported (fun _ _ => 0%Q) db_new order1)
    as (candidates & db' & ranked & Hrun & _).
  { apply (bool_decide_unpack _). vm_compute. exact I. }
  exists candidates, db'. split; [exact Hrun |].
  assert (Hval : get_drivers_for_notification reported (fun _ _ => 0%Q) db_new order1
                 = Some ([Candidate.mk 1 (car_driver 1 (4001 # 100) (-73 # 1) AVAILABLE)
                            (2 # 1) (5 # 1);
                          Candidate.mk 2 (car_driver 2 (4005 # 100) (-73 # 1) AVAILABLE)
                            (8 # 1) (15 # 1)],
                         mkDB [order1] fleet [offer 1 (2 # 1); offer 2 (8 # 1)]))
    by reflexivity.
  rewrite Hval in Hrun. injection Hrun as <- <-. repeat split; reflexivity.
Defined.

(* ----------------------------------------------------------------- *)
(** ** The race for one order *)

Lemma acquire_free (row : nat) (x : Sid) : acquire ∅ row x = Some {[row := x]}.
Proof. unfold acquire. now rewrite lookup_empty, insert_empty. Qed.

Lemma acquire_held (row : nat) (x y : Sid) : x <> y -> acquire {[row := x]} row y = None.
Proof.
  intros Hne. unfold acquire. rewrite lookup_singleton_eq. now rewrite decide_False.
Qed.

Lemma release_none (x : Sid) : release ∅ x = ∅.
Proof. apply map_filter_empty. Qed.

Lemma release_own (row : nat) (x : Sid) : release {[row := x]} x = ∅.
Proof. apply map_filter_singleton_False. simpl. tauto. Qed.

Section RaceFacts.
Context {F : Type}.
Variable utcnow : Sid -> nat -> Z.
Variable order_id : Z.
Variable driver_of : Sid -> Z.
Variable db0 : DB F.
Variable i : nat.
Variable o : Order.t F.
Variable row : Sid -> nat.
Variable drv : Sid -> Driver.t F.
Hypothesis Hkey_o : NoDup (Order.id <$> orders db0).
Hypothesis Hkey_d : NoDup (Driver.id <$> drivers db0).
Hypothesis Ho : list_find (is_pending_order order_id) (orders db0) = Some (i, o).
Hypothesis Hd : forall x,
  list_find (is_free_driver (driver_of x)) (drivers db0) = Some (row x, drv x).

Abbreviation step := (step utcnow order_id driver_of).
Abbreviation steps := (steps utcnow order_id driver_of).
Abbreviation race_inv := (race_inv utcnow driver_of db0 i row).
Abbreviation won := (won utcnow driver_of db0 i row).

Lemma order_row_by_id (m : nat) (o' : Order.t F) :
  orders db0 !! m = Some o' -> Order.id o' = order_id -> m = i.
Proof.
  intros Hm Hid. apply list_find_Some in Ho as (Hi & [Hio _] & _).
  eapply NoDup_lookup; [exact Hkey_o | |].
  - rewrite list_lookup_fmap, Hm. reflexivity.
  - rewrite list_lookup_fmap, Hi. simpl. congruence.
Qed.

Lemma driver_row_by_id (x : Sid) (m : nat) (d' : Driver.t F) :
  drivers db0 !! m = Some d' -> Driver.id d' = driver_of x -> m = row x.
Proof.
  intros Hm Hid. pose proof (Hd x) as (Hj & [Hjd _] & _)%list_find_Some.
  eapply NoDup_lookup; [exact Hkey_d | |].
  - rewrite list_lookup_fmap, Hm. reflexivity.
  - rewrite list_lookup_fmap, Hj. simpl. congruence.
Qed.

(** After a commit the order is no longer pending: the locked read of
    the other request finds nothing. *)
Lemma no_pending_after (x : Sid) (st : DB F) :
  won x st -> list_find (is_pending_order order_id) (orders st) = None.
Proof.
  intros [ns' ->]. simpl. apply list_find_None, Forall_forall.
  intros o' Ho' [Hid Hst]. apply list_elem_of_lookup_1 in Ho' as [m Hm].
  destruct (decide (m = i)) as [-> | Hne].
  - rewrite list_lookup_alter_eq in Hm.
    destruct (orders db0 !! i); simpl in Hm; [| discriminate].
    injection Hm as <-. discriminate.
  - rewrite list_lookup_alter_ne in Hm by congruence.
    apply Hne. now apply (order_row_by_id m o').
Qed.

Lemma commit_wins (x : Sid) :
  exists st r',
    won x st
    /\ assign_locked no_faults (utcnow x) i (row x) order_id (driver_of x) (begin db0)
       = (Return true, mkSession st st 3 r').
Proof.
  destruct (assign_locked_run no_faults (utcnow x) i (row x) order_id (driver_of x)
              (begin db0)) as (ns' & r' & _ & Hrun).
  simpl in Hrun. eexists. exists r'. split; [now exists ns' |]. exact Hrun.
Qed.

Lemma race_inv_step (w w' : World F) : race_inv w -> steps w w' -> race_inv w'.
Proof.
  intros Hinv [y Hstep]. destruct Hinv as [| x | x | x st pcx pcy Hwon Hx Hy].
  - (* nobody has moved *)
    unfold step in Hstep. destruct y; simpl in Hstep;
      rewrite Ho in Hstep; simpl in Hstep;
      rewrite acquire_free in Hstep; injection Hstep as <-.
    + apply (race_order _ _ _ _ _ SidA).
    + apply (race_order _ _ _ _ _ SidB).
  - (* x holds the order *)
    unfold step in Hstep. destruct x, y; simpl in Hstep;
      rewrite ?Ho, ?Hd in Hstep; simpl in Hstep;
      rewrite ?acquire_free, ?acquire_held in Hstep by discriminate;
      try discriminate; injection Hstep as <-.
    + apply (race_both _ _ _ _ _ SidA).
    + apply (race_both _ _ _ _ _ SidB).
  - (* x holds the order and its driver *)
    destruct (commit_wins x) as (st & r' & Hwon & Hrun).
    unfold step in Hstep.
    destruct x, y;
      cbn [pc_of world_of pc_a pc_b store order_locks driver_locks] in Hstep;
      rewrite ?Ho, ?Hrun in Hstep; simpl in Hstep;
      rewrite ?acquire_held, ?release_own in Hstep by discriminate;
      try discriminate; injection Hstep as <-.
    + apply (race_won _ _ _ _ _ SidA st (Returned true) AtSelectOrder); auto.
    + apply (race_won _ _ _ _ _ SidB st (Returned true) AtSelectOrder); auto.
  - (* x has won *)
    pose proof (no_pending_after x st Hwon) as Hnone.
    unfold step in Hstep.
    destruct x, y, pcx as [| | | [|] | [|]]; try discriminate Hx; simpl in Hstep;
      try discriminate Hstep;
      try (rewrite !release_none in Hstep; injection Hstep as <-;
           first [ apply (race_won _ _ _ _ _ SidA st (Closed true) pcy); now auto
                 | apply (race_won _ _ _ _ _ SidB st (Closed true) pcy); now auto ]).
    all: destruct Hy as [-> | Hy];
      [ simpl in Hstep; rewrite Hnone in Hstep; injection Hstep as <-
      | destruct pcy as [| | | [|] | [|]]; try discriminate Hy; simpl in Hstep;
        try discriminate Hstep; rewrite ?release_none in Hstep;
        injection Hstep as <- ].
    all: first [ apply (race_won _ _ _ _ _ SidA st _ _ Hwon); now auto
               | apply (race_won _ _ _ _ _ SidB st _ _ Hwon); now auto ].
Qed.

Lemma race_inv_reachable (w : World F) : rtc steps (start db0) w -> race_inv w.
Proof.
  intros Hrun. apply rtc_ind_r with (x := start db0) (P := race_inv) in Hrun;
    [assumption | apply race_start |].
  intros w1 w2 _ Hstep Hinv. now apply (race_inv_step w1 w2).
Qed.

(** No request waits for ever: while one of them is not closed, one of
    them can move. *)
Lemma race_inv_progress (w : World F) :
  race_inv w ->
  (exists ra rb, pc_a w = Closed ra /\ pc_b w = Closed rb) \/ exists w', steps w w'.
Proof.
  intros Hinv. destruct Hinv as [| x | x | x st pcx pcy Hwon Hx Hy].
  - right. eexists. exists SidA. unfold step. simpl.
    rewrite Ho. simpl. rewrite acquire_free. reflexivity.
  - right.
    destruct x; eexists; [exists SidA | exists SidB];
      unfold step; simpl; rewrite Hd; simpl; rewrite acquire_free; reflexivity.
  - right. destruct (commit_wins x) as (st & r' & _ & Hrun).
    destruct x; eexists; [exists SidA | exists SidB];
      unfold step; cbn [pc_of world_of pc_a pc_b store]; rewrite Hrun; reflexivity.
  - pose proof (no_pending_after x st Hwon) as Hnone.
    destruct pcx as [| | | [|] | [|]]; try discriminate Hx.
    + right. destruct x; eexists; [exists SidA | exists SidB]; reflexivity.
    + destruct Hy as [-> | Hy].
      * right.
        destruct x; eexists; [exists SidB | exists SidA];
          unfold step; simpl; rewrite Hnone; reflexivity.
      * destruct pcy as [| | | [|] | [|]]; try discriminate Hy.
        -- right. destruct x; eexists; [exists SidB | exists SidA]; reflexivity.
        -- left. destruct x; simpl; eauto.
Qed.

(** Once both requests have returned, one of them got [True], and the
    database holds its assignment. *)
Lemma race_inv_final (w : World F) (ra rb : bool) :
  race_inv w ->
  result (pc_a w) = Some ra -> result (pc_b w) = Some rb ->
  exists winner,
    result (pc_of winner w) = Some true
    /\ result (pc_of (other winner) w) = Some false
    /\ won winner (store w).
Proof.
  intros Hinv Ha Hb. destruct Hinv as [| x | x | x st pcx pcy Hwon Hx Hy].
  - discriminate.
  - destruct x; discriminate.
  - destruct x; discriminate.
  - exists x. destruct Hy as [-> | Hy]; [destruct x; discriminate |].
    destruct x; simpl; auto.
Qed.

Lemma won_order (x : Sid) (st : DB F) :
  won x st ->
  (exists o', o' ∈ orders st /\ Order.id o' = order_id)
  /\ (forall o', o' ∈ orders st -> Order.id o' = order_id ->
        Order.status o' = ASSIGNED /\ Order.driver_id o' = Some (driver_of x)).
Proof.
  intros [ns' ->]. simpl.
  pose proof Ho as (Hi & [Hio _] & _)%list_find_Some. split.
  - exists (set_assigned (driver_of x) (utcnow x 0%nat) o). split; [| exact Hio].
    eapply list_elem_of_lookup_2 with (i := i).
    now rewrite list_lookup_alter_eq, Hi.
  - intros o' Ho' Hid. apply list_elem_of_lookup_1 in Ho' as [m Hm].
    destruct (decide (m = i)) as [-> | Hne].
    + rewrite list_lookup_alter_eq, Hi in Hm. injection Hm as <-. now split.
    + rewrite list_lookup_alter_ne in Hm by congruence.
      destruct Hne. now apply (order_row_by_id m o').
Qed.

Lemma won_driver (x : Sid) (st : DB F) :
  won x st ->
  (exists d', d' ∈ drivers st /\ Driver.id d' = driver_of x)
  /\ (forall d', d' ∈ drivers st -> Driver.id d' = driver_of x ->
        Driver.status d' = BUSY).
Proof.
  intros [ns' ->]. simpl.
  pose proof (Hd x) as (Hj & [Hjd _] & _)%list_find_Some. split.
  - exists (set_status BUSY (drv x)). split; [| exact Hjd].
    eapply list_elem_of_lookup_2 with (i := row x).
    now rewrite list_lookup_alter_eq, Hj.
  - intros d' Hd' Hid. apply list_elem_of_lookup_1 in Hd' as [m Hm].
    destruct (decide (m = row x)) as [-> | Hne].
    + rewrite list_lookup_alter_eq, Hj in Hm. now injection Hm as <-.
    + rewrite list_lookup_alter_ne in Hm by congruence.
      destruct Hne. now apply (driver_row_by_id x m d').
Qed.
End RaceFacts.

Section RaceRuns.
Context {F : Type}.
Variable utcnow : Sid -> nat -> Z.
Variable order_id : Z.
Variable driver_of : Sid -> Z.

(** Every move brings a request closer to its end. *)
Lemma step_rank (w w' : World F) :
  steps utcnow order_id driver_of w w' ->
  (rank (pc_a w') + rank (pc_b w') < rank (pc_a w) + rank (pc_b w))%nat.
Proof.
  intros [x Hstep]. unfold step in Hstep.
  destruct x; simpl in Hstep.
  - destruct (pc_a w) as [| i | i j | b | b].
    + destruct (list_find _ _) as [[i o] |]; simpl in Hstep;
        [destruct (acquire _ _ _); simpl in Hstep; [| discriminate] |];
        injection Hstep as <-; simpl; lia.
    + destruct (list_find _ _) as [[j d] |]; simpl in Hstep;
        [destruct (acquire _ _ _); simpl in Hstep; [| discriminate] |];
        injection Hstep as <-; simpl; lia.
    + destruct (assign_locked _ _ _ _ _ _ _) as [[b |] s];
        injection Hstep as <-; simpl; lia.
    + injection Hstep as <-; simpl; lia.
    + discriminate.
  - destruct (pc_b w) as [| i | i j | b | b].
    + destruct (list_find _ _) as [[i o] |]; simpl in Hstep;
        [destruct (acquire _ _ _); simpl in Hstep; [| discriminate] |];
        injection Hstep as <-; simpl; lia.
    + destruct (list_find _ _) as [[j d] |]; simpl in Hstep;
        [destruct (acquire _ _ _); simpl in Hstep; [| discriminate] |];
        injection Hstep as <-; simpl; lia.
    + destruct (assign_locked _ _ _ _ _ _ _) as [[b |] s];
        injection Hstep as <-; simpl; lia.
    + injection Hstep as <-; simpl; lia.
    + discriminate.
Qed.

Lemma run_reachable (schedule : list Sid) :
  forall w : World F,
    rtc (steps utcnow order_id driver_of) w (run utcnow order_id driver_of schedule w).
Proof.
  induction schedule as [| x rest IH]; intros w; simpl; [apply rtc_refl |].
  destruct (step utcnow order_id driver_of x w) as [w1 |] eqn:Hstep; simpl.
  - eapply rtc_l; [exists x; exact Hstep | apply IH].
  - apply IH.
Qed.
End RaceRuns.



Lemma race_without_free_driver :
  run race_clock 1 racers a_then_b (start db_busy)
  = mkWorld db_busy ∅ ∅ (Closed false) (Closed false).
Proof. vm_compute. reflexivity. Qed.


(* ================================================================= *)
(** * Further properties of the code *)

(* ----------------------------------------------------------------- *)
(** ** The connection manager, when its dictionaries agree *)

(** X1. Registering a connection that is not registered yet, for a driver
    that has none, keeps the two dictionaries in agreement. *)
Theorem connect_fresh_consistent (m : ConnectionManager) (websocket : nat) (driver_id : Z) :
  consistent m ->
  active_connections m !! driver_id = None ->
  driver_connections m !! websocket = None ->
  consistent (connect m websocket driver_id).
Proof.
  intros Hc Hd Hw d ws. simpl.
  destruct (decide (d = driver_id)) as [-> | Hnd];
    destruct (decide (ws = websocket)) as [-> | Hnw].
  - now rewrite !lookup_insert_eq.
  - rewrite lookup_insert_eq, lookup_insert_ne by congruence. split.
    + intros [= ->]. contradiction.
    + intros Hrev%Hc. congruence.
  - rewrite lookup_insert_ne, lookup_insert_eq by congruence. split.
    + intros Hfwd%Hc. congruence.
    + intros [= ->]. contradiction.
  - rewrite !lookup_insert_ne by congruence. apply Hc.
Qed.

Lemma connect_fresh_consistent_witness : consistent (connect new_manager 1 7).
Proof.
  apply (connect_fresh_consistent new_manager 1 7).
  - intros d ws. simpl. now rewrite !lookup_empty.
  - apply lookup_empty.
  - apply lookup_empty.
Defined.

Lemma disconnect_consistent_run (m : ConnectionManager) (websocket : nat) :
  consistent m ->
  disconnect m websocket
  = Return (match driver_connections m !! websocket with
            | Some driver_id =>
                mkManager (delete driver_id (active_connections m))
                          (delete websocket (driver_connections m))
            | None => m
            end).
Proof.
  intros Hc. unfold disconnect.
  destruct (driver_connections m !! websocket) as [d |] eqn:Hw; [| reflexivity].
  apply Hc in Hw. now rewrite Hw.
Qed.

Lemma disconnect_agreeing (m : ConnectionManager) (websocket : nat) :
  consistent m ->
  exists m',
    disconnect m websocket = Return m'
    /\ consistent m'
    /\ active_connections m' ⊆ active_connections m
    /\ driver_connections m' !! websocket = None
    /\ (forall d, active_connections m' !! d <> Some websocket)
    /\ (forall d ws, ws <> websocket ->
          (active_connections m' !! d = Some ws <-> active_connections m !! d = Some ws)).
Proof.
  intros Hc. rewrite (disconnect_consistent_run m websocket Hc).
  eexists. split; [reflexivity |].
  destruct (driver_connections m !! websocket) as [d0 |] eqn:Hw.
  - pose proof (proj2 (Hc d0 websocket) Hw) as Hfwd. simpl.
    split; [| split; [apply delete_subseteq | split; [apply lookup_delete_eq | split]]].
    + intros d ws. simpl. rewrite !lookup_delete_Some. split.
      * intros [Hne Hd]. split; [| now apply Hc].
        intros ->. apply Hc in Hd. congruence.
      * intros [Hne Hd]. split; [| now apply Hc].
        intros ->. apply Hc in Hd. congruence.
    + intros d. rewrite lookup_delete_Some. intros [Hne Hd].
      apply Hc in Hd. congruence.
    + intros d ws Hne. rewrite lookup_delete_Some. split; [tauto |].
      intros Hd. split; [| assumption]. intros ->. congruence.
  - split; [assumption |]. split; [reflexivity |]. split; [assumption |].
    split; [| tauto]. intros d Hd. apply Hc in Hd. congruence.
Qed.

Lemma registered_once_consistent : consistent (connect new_manager 1 7).
Proof.
  intros d ws. simpl.
  destruct (decide (d = 7)) as [-> | Hd]; destruct (decide (ws = 1%nat)) as [-> | Hw].
  - now rewrite !lookup_insert_eq.
  - rewrite lookup_insert_eq, lookup_insert_ne, lookup_empty by congruence.
    split; [intros [= <-]; contradiction | discriminate].
  - rewrite lookup_insert_ne, lookup_insert_eq, lookup_empty by congruence.
    split; [discriminate | intros [= <-]; contradiction].
  - rewrite !lookup_insert_ne, !lookup_empty by congruence. split; discriminate.
Qed.

(** X2. While the dictionaries agree, unregistering never raises
    [KeyError]; afterwards the connection and its driver are gone from
    both dictionaries, every other registration is as it was, and the
    dictionaries still agree. *)
Theorem disconnect_consistent (m : ConnectionManager) (websocket : nat) :
  consistent m ->
  exists m',
    disconnect m websocket = Return m'
    /\ consistent m'
    /\ driver_connections m' !! websocket = None
    /\ (forall d, active_connections m' !! d <> Some websocket)
    /\ (forall d ws, ws <> websocket ->
          (active_connections m' !! d = Some ws <-> active_connections m !! d = Some ws)).
Proof.
  intros Hc.
  destruct (disconnect_agreeing m websocket Hc) as (m' & Hrun & Hc' & _ & Hw & Hd & Hrest).
  exists m'. auto.
Qed.

Lemma disconnect_consistent_witness :
  exists m', disconnect (connect new_manager 1 7) 1 = Return m'
             /\ consistent m'
             /\ driver_connections m' !! 1%nat = None.
Proof.
  destruct (disconnect_consistent (connect new_manager 1 7) 1
              registered_once_consistent) as (m' & Hrun & Hc & Hgone & _).
  exists m'. auto.
Defined.



(** X4. Registering a fresh connection for a driver without one and
    unregistering it again gives the manager back as it was. *)
Theorem connect_disconnect_roundtrip (m : ConnectionManager) (websocket : nat)
    (driver_id : Z) :
  active_connections m !! driver_id = None ->
  driver_connections m !! websocket = None ->
  disconnect (connect m websocket driver_id) websocket = Return m.
Proof.
  intros Hd Hw. unfold disconnect, connect. simpl.
  rewrite !lookup_insert_eq. f_equal. destruct m as [ac dc]. simpl in *.
  f_equal; now apply delete_insert_id.
Qed.

Lemma connect_disconnect_roundtrip_witness :
  disconnect (connect new_manager 1 7) 1 = Return new_manager.
Proof.
  apply (connect_disconnect_roundtrip new_manager 1 7); apply lookup_empty.
Defined.

Lemma send_agreeing (send_text : nat -> bool) (m : ConnectionManager) (message : string)
    (driver_id : Z) :
  consistent m ->
  exists success m' wire,
    send_personal_message send_text m message driver_id = (Return success, m', wire)
    /\ consistent m'
    /\ active_connections m' ⊆ active_connections m
    /\ (success = true ->
        m' = m /\ exists ws, active_connections m !! driver_id = Some ws
                             /\ send_text ws = true /\ wire = [(ws, message)])
    /\ (success = false ->
        wire = [] /\ active_connections m' !! driver_id = None
        /\ (forall ws, active_connections m !! driver_id = Some ws ->
              send_text ws = false /\ driver_connections m' !! ws = None)).
Proof.
  intros Hc. unfold send_personal_message.
  destruct (active_connections m !! driver_id) as [ws |] eqn:Hd.
  - destruct (send_text ws) eqn:Hok.
    + exists true, m, [(ws, message)]. split; [reflexivity |]. split; [assumption |].
      split; [reflexivity |]. split; [| discriminate].
      intros _. split; [reflexivity |]. exists ws. auto.
    + destruct (disconnect_agreeing m ws Hc) as (m' & Hrun & Hc' & Hsub & Hw & Hnone & Hrest).
      rewrite Hrun. exists false, m', []. split; [reflexivity |]. split; [assumption |].
      split; [assumption |]. split; [discriminate |].
      intros _. split; [reflexivity |]. split.
      * destruct (active_connections m' !! driver_id) as [ws' |] eqn:Hd'; [| reflexivity].
        pose proof (lookup_weaken _ _ _ _ Hd' Hsub) as Hd''.
        assert (ws' = ws) as -> by congruence. now destruct (Hnone driver_id).
      * intros ws' [= <-]. auto.
  - exists false, m, []. split; [reflexivity |]. split; [assumption |].
    split; [reflexivity |]. split; [discriminate |].
    intros _. split; [reflexivity |]. split; [assumption |]. discriminate.
Qed.

(** X5. While the dictionaries agree, a send whose write fails tears the
    registration down: it returns [False] without raising, nothing is
    written, the driver and the broken connection are gone from both
    dictionaries, the dictionaries still agree, and the next send to that
    driver is dropped without touching any channel. *)
Theorem send_failure_unregisters (send_text : nat -> bool) (m : ConnectionManager)
    (message : string) (driver_id : Z) (websocket : nat) :
  consistent m ->
  active_connections m !! driver_id = Some websocket ->
  send_text websocket = false ->
  exists m',
    send_personal_message send_text m message driver_id = (Return false, m', [])
    /\ consistent m'
    /\ active_connections m' !! driver_id = None
    /\ driver_connections m' !! websocket = None
    /\ forall send_text' message',
         send_personal_message send_text' m' message' driver_id = (Return false, m', []).
Proof.
  intros Hc Hd Hbad.
  destruct (send_agreeing send_text m message driver_id Hc)
    as (success & m' & wire & Hrun & Hc' & _ & Hyes & Hno).
  destruct success.
  - destruct (Hyes eq_refl) as (_ & ws & Hws & Hok & _). congruence.
  - destruct (Hno eq_refl) as (-> & Hgone & Hws). exists m'.
    split; [assumption |]. split; [assumption |]. split; [assumption |].
    split; [now apply (Hws websocket) |].
    intros send_text' message'. unfold send_personal_message. now rewrite Hgone.
Qed.

Lemma send_failure_unregisters_witness :
  exists m',
    send_personal_message (fun _ => false) (connect new_manager 1 7) "offer" 7
    = (Return false, m', [])
    /\ active_connections m' !! 7 = None
    /\ driver_connections m' !! 1%nat = None.
Proof.
  destruct (send_failure_unregisters (fun _ => false) (connect new_manager 1 7) "offer" 7 1
              registered_once_consistent (connect_active new_manager 1 7) eq_refl)
    as (m' & Hrun & _ & Hd & Hw & _).
  exists m'. auto.
Defined.

Lemma notify_agreeing (send_text : nat -> bool) (message : string) (driver_ids : list Z) :
  forall m, consistent m ->
    exists successful m' wire,
      notify_drivers_about_order send_text m message driver_ids
      = (Return successful, m', wire)
      /\ consistent m'
      /\ active_connections m' ⊆ active_connections m
      /\ successful `sublist_of` driver_ids
      /\ Forall2 (fun d w => active_connections m !! d = Some w.1
                             /\ send_text w.1 = true /\ w.2 = message)
           successful wire.
Proof.
  induction driver_ids as [| d rest IH]; intros m Hc; simpl.
  - exists [], m, []. split; [reflexivity |]. split; [assumption |].
    split; [reflexivity |]. split; constructor.
  - destruct (send_agreeing send_text m message d Hc)
      as (success & m1 & wire1 & -> & Hc1 & Hsub1 & Hyes & Hno).
    destruct (IH m1 Hc1) as (successful & m2 & wire2 & -> & Hc2 & Hsub2 & Hsl & Hall).
    assert (Hall' : Forall2 (fun d w => active_connections m !! d = Some w.1
                                        /\ send_text w.1 = true /\ w.2 = message)
                      successful wire2).
    { eapply Forall2_impl; [exact Hall |]. intros d' w (Hd' & Hok & Hmsg).
      split; [| auto]. exact (lookup_weaken _ _ _ _ Hd' Hsub1). }
    eexists _, m2, _. split; [reflexivity |]. split; [assumption |].
    split; [now transitivity (active_connections m1) |].
    destruct success.
    + destruct (Hyes eq_refl) as (_ & ws & Hws & Hok & ->). split.
      * now apply sublist_skip.
      * simpl. constructor; [auto | assumption].
    + destruct (Hno eq_refl) as (-> & _). split.
      * now apply sublist_cons.
      * assumption.
Qed.

(** X6. While the dictionaries agree, the fan-out of an order never
    raises and leaves them in agreement. The drivers it reports are a
    subsequence of the drivers it was given, and the text was written
    once per reported driver, in that order, each time to the connection
    that driver had when the fan-out began and whose write succeeded. *)
Theorem notify_delivers (send_text : nat -> bool) (m : ConnectionManager)
    (message : string) (driver_ids : list Z) :
  consistent m ->
  exists successful m' wire,
    notify_drivers_about_order send_text m message driver_ids
    = (Return successful, m', wire)
    /\ consistent m'
    /\ successful `sublist_of` driver_ids
    /\ List.length wire = List.length successful
    /\ Forall2 (fun d w => active_connections m !! d = Some w.1
                           /\ send_text w.1 = true /\ w.2 = message)
         successful wire.
Proof.
  intros Hc.
  destruct (notify_agreeing send_text message driver_ids m Hc)
    as (successful & m' & wire & Hrun & Hc' & _ & Hsl & Hall).
  exists successful, m', wire. split; [assumption |]. split; [assumption |].
  split; [assumption |]. split; [| assumption].
  symmetry. exact (Forall2_length _ _ _ Hall).
Qed.

Lemma notify_delivers_witness :
  exists m',
    notify_drivers_about_order (fun _ => true) (connect new_manager 1 7) "offer" [5; 7]
    = (Return [7], m', [(1%nat, "offer")])
    /\ consistent m'.
Proof.
  destruct (notify_delivers (fun _ => true) (connect new_manager 1 7) "offer" [5; 7]
              registered_once_consistent) as (successful & m' & wire & Hrun & Hc & _).
  exists m'. split; [| assumption].
  rewrite Hrun. f_equal; [f_equal |].
  - assert (Hval : (notify_drivers_about_order (fun _ => true) (connect new_manager 1 7)
                      "offer" [5; 7]).1.1 = Return [7]) by (vm_compute; reflexivity).
    now rewrite Hrun in Hval.
  - assert (Hval : (notify_drivers_about_order (fun _ => true) (connect new_manager 1 7)
                      "offer" [5; 7]).2 = [(1%nat, "offer")]) by (vm_compute; reflexivity).
    now rewrite Hrun in Hval.
Defined.

(** X7. When every write succeeds, the fan-out leaves the manager as it
    was, whatever its state, and reports exactly the given drivers that
    have a connection, in the order given. *)
Theorem notify_all_healthy (send_text : nat -> bool) (m : ConnectionManager)
    (message : string) (driver_ids : list Z) :
  (forall ws, send_text ws = true) ->
  exists wire,
    notify_drivers_about_order send_text m message driver_ids
    = (Return (List.filter (is_driver_connected m) driver_ids), m, wire).
Proof.
  intros Hok. induction driver_ids as [| d rest [wire IH]]; simpl.
  - now exists [].
  - unfold send_personal_message, is_driver_connected at 1.
    destruct (active_connections m !! d) as [ws |] eqn:Hd.
    + rewrite Hok, IH. rewrite bool_decide_eq_true_2 by eauto. eexists. reflexivity.
    + rewrite IH. rewrite bool_decide_eq_false_2 by (intros [? ?]; discriminate).
      eexists. reflexivity.
Qed.

Lemma notify_all_healthy_witness :
  exists wire,
    notify_drivers_about_order (fun _ => true) (connect new_manager 1 7) "offer" [5; 7]
    = (Return (List.filter (is_driver_connected (connect new_manager 1 7)) [5; 7]),
       connect new_manager 1 7, wire).
Proof.
  apply (notify_all_healthy (fun _ => true) (connect new_manager 1 7) "offer" [5; 7]).
  reflexivity.
Defined.

(* ----------------------------------------------------------------- *)
(** ** The distance estimates *)

Lemma distances_from_lookup {F : Type} `{PyFloat F}
    (oracle : nat -> F * F -> F * F -> option (RouteInfo.t F))
    (haversine : F * F -> F * F -> F) (pickup : F * F) (locations : list (F * F * Z)) :
  forall (k n : nat) (lat lon : F) (driver_id : Z),
    locations !! n = Some (lat, lon, driver_id) ->
    calculate_drivers_distances_from oracle haversine k pickup locations !! n
    = Some (match oracle (k + n)%nat pickup (lat, lon) with
            | Some route_info =>
                DistanceInfo.mk driver_id (RouteInfo.distance_km route_info)
                  (RouteInfo.duration_minutes route_info)
            | None =>
                DistanceInfo.mk driver_id (haversine pickup (lat, lon))
                  (f_mul (haversine pickup (lat, lon)) (f_of_int 2))
            end).
Proof.
  induction locations as [| [[lat0 lon0] id0] rest IH]; intros k n lat lon driver_id Hn.
  - discriminate.
  - destruct n as [| n]; simpl in *.
    + injection Hn as -> -> ->. now rewrite Nat.add_0_r.
    + rewrite (IH (S k) n lat lon driver_id Hn).
      now replace (S k + n)%nat with (k + S n)%nat by lia.
Qed.

Lemma distances_from_length {F : Type} `{PyFloat F}
    (oracle : nat -> F * F -> F * F -> option (RouteInfo.t F))
    (haversine : F * F -> F * F -> F) (pickup : F * F) (locations : list (F * F * Z)) :
  forall k,
    List.length (calculate_drivers_distances_from oracle haversine k pickup locations)
    = List.length locations.
Proof.
  induction locations as [| [[lat0 lon0] id0] rest IH]; intros k; simpl;
    [reflexivity | now rewrite IH].
Qed.

(** X8. The batch of estimates has one entry per driver location, in the
    order given and with that driver's identifier. Each entry is decided
    by the routing answer for its own pair alone: the route's figures when
    there is one, the straight-line fallback when there is none, whatever
    happened for the other drivers. *)
Theorem distances_in_order {F : Type} `{PyFloat F}
    (oracle : nat -> F * F -> F * F -> option (RouteInfo.t F))
    (haversine : F * F -> F * F -> F) (pickup : F * F) (locations : list (F * F * Z)) :
  List.length (calculate_drivers_distances oracle haversine pickup locations)
  = List.length locations
  /\ forall n lat lon driver_id,
       locations !! n = Some (lat, lon, driver_id) ->
       exists entry,
         calculate_drivers_distances oracle haversine pickup locations !! n = Some entry
         /\ DistanceInfo.driver_id entry = driver_id
         /\ (forall route_info, oracle n pickup (lat, lon) = Some route_info ->
               DistanceInfo.distance_km entry = RouteInfo.distance_km route_info
               /\ DistanceInfo.duration_minutes entry = RouteInfo.duration_minutes route_info)
         /\ (oracle n pickup (lat, lon) = None ->
               DistanceInfo.distance_km entry = haversine pickup (lat, lon)
               /\ DistanceInfo.duration_minutes entry
                  = f_mul (haversine pickup (lat, lon)) (f_of_int 2)).
Proof.
  split; [apply distances_from_length |].
  intros n lat lon driver_id Hn. eexists.
  split; [exact (distances_from_lookup oracle haversine pickup locations 0 n _ _ _ Hn) |].
  simpl. destruct (oracle n pickup (lat, lon)) as [r |]; simpl.
  - split; [reflexivity |]. split; [| discriminate]. now intros ? [= <-].
  - split; [reflexivity |]. split; [discriminate | auto].
Qed.

Lemma distances_in_order_witness :
  exists entry,
    calculate_drivers_distances reported (fun _ _ => 0%Q) (40 # 1, -73 # 1)%Q
      [((4001 # 100)%Q, (-73 # 1)%Q, 1); ((4005 # 100)%Q, (-73 # 1)%Q, 2)] !! 1%nat
    = Some entry
    /\ DistanceInfo.driver_id entry = 2
    /\ DistanceInfo.distance_km entry = (8 # 1)%Q.
Proof.
  destruct (proj2 (distances_in_order reported (fun _ _ => 0%Q) (40 # 1, -73 # 1)%Q
                     [((4001 # 100)%Q, (-73 # 1)%Q, 1); ((4005 # 100)%Q, (-73 # 1)%Q, 2)])
              1%nat (4005 # 100)%Q (-73 # 1)%Q 2 eq_refl)
    as (entry & He & Hid & Hroute & _).
  exists entry. split; [assumption |]. split; [assumption |].
  now destruct (Hroute (RouteInfo.mk (8 # 1) (15 # 1)) eq_refl).
Defined.

Lemma haversine_unfold (point1 point2 : R * R) :
  calculate_haversine_distance point1 point2
  = (2 * asin (sqrt (haversine_a point1 point2)) * 6371)%R.
Proof. now destruct point1, point2. Qed.

Lemma sin_half_swap (a b : R) : (sin ((a - b) / 2) ^ 2 = sin ((b - a) / 2) ^ 2)%R.
Proof.
  replace ((a - b) / 2)%R with (- ((b - a) / 2))%R by lra.
  rewrite sin_neg. simpl. lra.
Qed.

(** X9. The haversine distance does not depend on the order of its two
    points. *)
Theorem haversine_symmetric (point1 point2 : R * R) :
  calculate_haversine_distance point1 point2 = calculate_haversine_distance point2 point1.
Proof.
  rewrite !haversine_unfold. destruct point1 as [lat1 lon1], point2 as [lat2 lon2].
  unfold haversine_a.
  rewrite (sin_half_swap (radians lat2) (radians lat1)).
  rewrite (sin_half_swap (radians lon2) (radians lon1)).
  now rewrite (Rmult_comm (cos (radians lat1)) (cos (radians lat2))).
Qed.

Lemma cos_product_bound (p q : R) :
  (cos p * cos q <= cos ((q - p) / 2) * cos ((q - p) / 2))%R.
Proof.
  pose proof (cos_plus p q) as Hplus. pose proof (cos_minus q p) as Hminus.
  pose proof (cos_2a_cos ((q - p) / 2)) as Hdouble.
  replace (2 * ((q - p) / 2))%R with (q - p)%R in Hdouble by lra.
  pose proof (COS_bound (p + q)) as [_ Hle]. lra.
Qed.

Lemma asin_nonneg (x : R) : (0 <= x <= 1)%R -> (0 <= asin x)%R.
Proof.
  intros [H0 H1]. destruct (Rle_or_lt 0 (asin x)) as [Hge | Hlt]; [assumption |].
  pose proof (asin_bound x) as [Hlo _]. pose proof PI_RGT_0.
  assert (Hsin : (sin (asin x) < 0)%R) by (apply sin_lt_0_var; lra).
  rewrite sin_asin in Hsin by lra. lra.
Qed.



(* ----------------------------------------------------------------- *)
(** ** More on the assignment transaction *)

Section AssignmentMore.
Context {F : Type}.
Implicit Types (db : DB F).

Lemma alter_found_insert {A : Type} (f : A -> A) (l : list A) (i : nat) (x : A) :
  l !! i = Some x -> alter f i l = <[i := f x]> l.
Proof.
  intros Hi. apply list_eq. intros m. destruct (decide (m = i)) as [-> | Hne].
  - rewrite list_lookup_alter_eq, Hi, list_lookup_insert_eq; [reflexivity |].
    now apply lookup_lt_Some in Hi.
  - now rewrite list_lookup_alter_ne, list_lookup_insert_ne.
Qed.

(** What it takes for the call to return [True], and what it has then
    committed. *)
Lemma assign_true_run fails utcnow db (order_id driver_id : Z) db' :
  assign_order_to_first_accepter fails utcnow db order_id driver_id = (true, db') ->
  exists i o j d,
    list_find (is_pending_order order_id) (orders db) = Some (i, o)
    /\ list_find (is_free_driver driver_id) (drivers db) = Some (j, d)
    /\ orders db' = <[i := set_assigned driver_id (utcnow 0%nat) o]> (orders db)
    /\ drivers db' = <[j := set_status BUSY d]> (drivers db)
    /\ offers_settled order_id driver_id (utcnow 1%nat)
         (order_notifications db) (order_notifications db')
    /\ (forall k, (k < 5)%nat -> fails k = false).
Proof.
  unfold assign_order_to_first_accepter. rewrite assign_body_run.
  destruct (fails 0%nat) eqn:E0; [discriminate |].
  destruct (list_find _ (orders db)) as [[i o] |] eqn:Ho; [| discriminate].
  destruct (fails 1%nat) eqn:E1; [discriminate |].
  destruct (list_find _ (drivers db)) as [[j d] |] eqn:Hd; [| discriminate].
  destruct (assign_locked_run fails utcnow i j order_id driver_id (bump (bump (begin db))))
    as (ns' & r' & Hoffers & Hrun).
  simpl in Hrun, Hoffers.
  destruct (fails 2%nat) eqn:E2; [destruct Hrun as (s' & -> & _); discriminate |].
  destruct (fails 3%nat) eqn:E3; [destruct Hrun as (s' & -> & _); discriminate |].
  destruct (fails 4%nat) eqn:E4; [destruct Hrun as (s' & -> & _); discriminate |].
  simpl in Hrun. rewrite Hrun. intros [= <-]. simpl.
  exists i, o, j, d. split; [reflexivity |]. split; [reflexivity |].
  pose proof Ho as (Hio & _)%list_find_Some. pose proof Hd as (Hjd & _)%list_find_Some.
  split; [now apply alter_found_insert |]. split; [now apply alter_found_insert |].
  split; [assumption |].
  intros k Hk. destruct k as [| [| [| [| [| k]]]]]; (assumption || lia).
Qed.

Lemma assign_run_none fails utcnow db (order_id driver_id : Z) :
  list_find (is_pending_order order_id) (orders db) = None
  \/ list_find (is_free_driver driver_id) (drivers db) = None ->
  assign_order_to_first_accepter fails utcnow db order_id driver_id = (false, db).
Proof.
  intros Hnone. unfold assign_order_to_first_accepter. rewrite assign_body_run.
  destruct (fails 0%nat); [reflexivity |].
  destruct (list_find _ (orders db)) as [[i o] |] eqn:Ho; [| reflexivity].
  destruct (fails 1%nat); [reflexivity |].
  destruct (list_find _ (drivers db)) as [[j d] |] eqn:Hd; [| reflexivity].
  destruct Hnone; discriminate.
Qed.

Lemma false_leaves_db fails utcnow db (order_id driver_id : Z) db' :
  assign_order_to_first_accepter fails utcnow db order_id driver_id = (false, db') ->
  db' = db.
Proof.
  unfold assign_order_to_first_accepter.
  destruct (assign_body fails utcnow order_id driver_id (begin db)) as [r s] eqn:Hs.
  destruct (assign_all_or_nothing _ _ _ _ _ _ _ Hs) as [-> | [Hr Hc]].
  - discriminate.
  - destruct r as [b |]; simpl; [intros [= -> <-] | intros [= <-]]; exact Hc.
Qed.


Lemma order_not_pending_after db (order_id : Z) i o (o' : Order.t F) :
  NoDup (Order.id <$> orders db) ->
  list_find (is_pending_order order_id) (orders db) = Some (i, o) ->
  Order.id o' = Order.id o -> Order.status o' <> PENDING ->
  list_find (is_pending_order order_id) (<[i := o']> (orders db)) = None.
Proof.
  intros Hkey (Hi & [Hid _] & _)%list_find_Some Hid' Hst.
  apply list_find_None, Forall_forall. intros x Hx [Hxid Hxst].
  apply list_elem_of_lookup_1 in Hx as [m Hm].
  destruct (decide (m = i)) as [-> | Hne].
  - rewrite list_lookup_insert_eq in Hm by now apply lookup_lt_Some in Hi.
    injection Hm as <-. contradiction.
  - rewrite list_lookup_insert_ne in Hm by congruence. apply Hne.
    eapply NoDup_lookup; [exact Hkey | |].
    + rewrite list_lookup_fmap, Hm. reflexivity.
    + rewrite list_lookup_fmap, Hi. simpl. congruence.
Qed.

Lemma driver_not_free_after db (driver_id : Z) j d (d' : Driver.t F) :
  NoDup (Driver.id <$> drivers db) ->
  list_find (is_free_driver driver_id) (drivers db) = Some (j, d) ->
  Driver.id d' = Driver.id d -> Driver.status d' <> AVAILABLE ->
  list_find (is_free_driver driver_id) (<[j := d']> (drivers db)) = None.
Proof.
  intros Hkey (Hj & [Hid _] & _)%list_find_Some Hid' Hst.
  apply list_find_None, Forall_forall. intros x Hx (Hxid & Hxst & _).
  apply list_elem_of_lookup_1 in Hx as [m Hm].
  destruct (decide (m = j)) as [-> | Hne].
  - rewrite list_lookup_insert_eq in Hm by now apply lookup_lt_Some in Hj.
    injection Hm as <-. contradiction.
  - rewrite list_lookup_insert_ne in Hm by congruence. apply Hne.
    eapply NoDup_lookup; [exact Hkey | |].
    + rewrite list_lookup_fmap, Hm. reflexivity.
    + rewrite list_lookup_fmap, Hj. simpl. congruence.
Qed.

(** X12. An order is won once: with order identifiers unique, after a
    call has returned [True] for an order, every later call for that
    order, by any driver and whatever fails, returns [False] and leaves
    the database as the winner committed it. *)
Theorem assign_once fails utcnow db (order_id driver_id : Z) db' :
  NoDup (Order.id <$> orders db) ->
  assign_order_to_first_accepter fails utcnow db order_id driver_id = (true, db') ->
  forall fails' utcnow' driver_id',
    assign_order_to_first_accepter fails' utcnow' db' order_id driver_id' = (false, db').
Proof.
  intros Hkey (i & o & j & d & Ho & _ & Horders & _)%assign_true_run.
  intros fails' utcnow' driver_id'. apply assign_run_none. left. rewrite Horders.
  now apply (order_not_pending_after db order_id i o).
Qed.

(** X13. A driver holds one order at a time: with driver identifiers
    unique, after a call has returned [True] for a driver, every later
    call by that driver, for any order and whatever fails, returns [False]
    and changes nothing. *)
Theorem busy_driver_cannot_win fails utcnow db (order_id driver_id : Z) db' :
  NoDup (Driver.id <$> drivers db) ->
  assign_order_to_first_accepter fails utcnow db order_id driver_id = (true, db') ->
  forall fails' utcnow' order_id',
    assign_order_to_first_accepter fails' utcnow' db' order_id' driver_id = (false, db').
Proof.
  intros Hkey (i & o & j & d & _ & Hd & _ & Hdrivers & _)%assign_true_run.
  intros fails' utcnow' order_id'. apply assign_run_none. right. rewrite Hdrivers.
  now apply (driver_not_free_after db driver_id j d).
Qed.
End AssignmentMore.

Lemma db_open_assigned :
  assign_order_to_first_accepter no_faults (clock 1000) db_open 1 1 = (true, db_taken).
Proof. vm_compute. reflexivity. Qed.


Lemma assign_once_witness :
  assign_order_to_first_accepter commit_fails (clock 2000) db_taken 1 2 = (false, db_taken).
Proof.
  apply (assign_once no_faults (clock 1000) db_open 1 1 db_taken);
    [apply (bool_decide_unpack _); vm_compute; exact I | exact db_open_assigned].
Defined.

Lemma busy_driver_cannot_win_witness :
  assign_order_to_first_accepter no_faults (clock 2000) db_taken 9 1 = (false, db_taken).
Proof.
  apply (busy_driver_cannot_win no_faults (clock 1000) db_open 1 1 db_taken);
    [apply (bool_decide_unpack _); vm_compute; exact I | exact db_open_assigned].
Defined.

Section AssignmentInvariants.
Context {F : Type}.
Implicit Types (db : DB F).

Lemma settled_row (order_id driver_id t1 : Z) (ns ns' : list (OrderNotification.t F))
    (k : nat) (n' : OrderNotification.t F) :
  offers_settled order_id driver_id t1 ns ns' ->
  ns' !! k = Some n' ->
  exists n, ns !! k = Some n
            /\ (n' = n \/ exists r t, n' = set_response r t n).
Proof.
  intros [Hlen Hrows] Hk.
  destruct (ns !! k) as [n |] eqn:Hn.
  - exists n. split; [reflexivity |].
    destruct (Hrows k n Hn) as (n'' & Hk' & Hfirst & Hother & Hrest).
    assert (n'' = n') as -> by congruence.
    destruct (decide (is_other_offer order_id driver_id n)) as [Ho | Ho].
    + destruct (Hother Ho) as [t ->]. right. eauto.
    + destruct (list_find (is_offer order_id driver_id) ns) as [[k0 n0] |] eqn:Hf.
      * destruct (decide (k0 = k)) as [-> | Hne].
        -- pose proof Hf as (Hk0 & _)%list_find_Some.
           assert (n0 = n) as -> by congruence. right. eauto.
        -- left. apply Hrest; [congruence | assumption].
      * left. apply Hrest; [discriminate | assumption].
  - apply lookup_lt_Some in Hk. apply lookup_ge_None in Hn. lia.
Qed.

(** X14. Whatever the arguments and whatever fails, the call inserts and
    deletes no row and rewrites no key: orders and drivers keep their
    identifiers in place, every offer keeps its order, its driver and its
    distance, and an answered offer stays answered. It also keeps the
    rule that a pending order has no driver. *)
Theorem assign_preserves_rows fails utcnow db (order_id driver_id : Z) :
  let db' := snd (assign_order_to_first_accepter fails utcnow db order_id driver_id) in
  Order.id <$> orders db' = Order.id <$> orders db
  /\ Driver.id <$> drivers db' = Driver.id <$> drivers db
  /\ List.length (order_notifications db') = List.length (order_notifications db)
  /\ (forall k n', order_notifications db' !! k = Some n' ->
        exists n, order_notifications db !! k = Some n
                  /\ OrderNotification.order_id n' = OrderNotification.order_id n
                  /\ OrderNotification.driver_id n' = OrderNotification.driver_id n
                  /\ OrderNotification.distance_km n' = OrderNotification.distance_km n
                  /\ (is_Some (OrderNotification.response n) ->
                      is_Some (OrderNotification.response n')))
  /\ ((forall o, o ∈ orders db -> Order.status o = PENDING -> Order.driver_id o = None) ->
      forall o, o ∈ orders db' -> Order.status o = PENDING -> Order.driver_id o = None).
Proof.
  destruct (assign_order_to_first_accepter fails utcnow db order_id driver_id)
    as [[|] db'] eqn:Hrun; simpl.
  - apply assign_true_run in Hrun
      as (i & o & j & d & Ho & Hd & -> & -> & Hoffers & _).
    apply list_find_Some in Ho as (Ho & _). apply list_find_Some in Hd as (Hd & _).
    split; [| split; [| split; [| split]]].
    + rewrite list_fmap_insert. apply list_insert_id. now rewrite list_lookup_fmap, Ho.
    + rewrite list_fmap_insert. apply list_insert_id. now rewrite list_lookup_fmap, Hd.
    + apply Hoffers.
    + intros k n' Hk.
      destruct (settled_row _ _ _ _ _ k n' Hoffers Hk) as (n & Hn & [-> | (r & t & ->)]);
        exists n; simpl; eauto 10.
    + intros Hinv x Hx Hst. apply list_elem_of_lookup_1 in Hx as [m Hm].
      destruct (decide (m = i)) as [-> | Hne].
      * rewrite list_lookup_insert_eq in Hm by now apply lookup_lt_Some in Ho.
        injection Hm as <-. discriminate.
      * rewrite list_lookup_insert_ne in Hm by congruence.
        apply Hinv; [| assumption]. now apply list_elem_of_lookup_2 in Hm.
  - apply false_leaves_db in Hrun as ->.
    split; [reflexivity |]. split; [reflexivity |]. split; [reflexivity |].
    split; [| auto]. intros k n' Hk. exists n'. auto.
Qed.

(** X15. An offer a driver has rejected is not expired when the order
    goes to somebody else: after driver [d2] has rejected, a call for
    another driver, successful or not, leaves that offer [rejected] with
    the instant of the rejection. *)
Theorem rejected_offer_survives fails utcnow utcnow_r db (order_id d1 d2 : Z) k n :
  d1 <> d2 ->
  list_find (is_offer order_id d2) (order_notifications db) = Some (k, n) ->
  order_notifications
    (snd (assign_order_to_first_accepter fails utcnow
            (snd (reject_order no_faults utcnow_r db order_id d2)) order_id d1)) !! k
  = Some (set_response "rejected" (utcnow_r 0%nat) n).
Proof.
  intros Hne Hfind. rewrite reject_order_run, Hfind. simpl.
  pose proof Hfind as (Hk & [Hoid Hdid] & _)%list_find_Some.
  set (db1 := mkDB (orders db) (drivers db)
                (alter (set_response "rejected" (utcnow_r 0%nat)) k (order_notifications db))).
  assert (Hk1 : order_notifications db1 !! k
                = Some (set_response "rejected" (utcnow_r 0%nat) n)).
  { simpl. now rewrite list_lookup_alter_eq, Hk. }
  destruct (assign_order_to_first_accepter fails utcnow db1 order_id d1)
    as [[|] db2] eqn:Hrun; simpl.
  - apply assign_true_run in Hrun as (_ & _ & _ & _ & _ & _ & _ & _ & [_ Hrows] & _).
    destruct (Hrows k _ Hk1) as (n' & Hk2 & _ & _ & Hrest).
    rewrite Hk2, Hrest; [reflexivity | |].
    + intros (_ & [_ Hd] & _)%list_find_Some. simpl in Hd. congruence.
    + intros (_ & _ & Hr). discriminate.
  - apply false_leaves_db in Hrun as ->. exact Hk1.
Qed.

(** X16. Rejections never change who can win: whatever was rejected
    before, by whom and for which order, and whether that call failed or
    not, a call to assign returns the same value and leaves the same
    orders and the same drivers as it would have without the rejection. *)
Theorem reject_does_not_block fails_r utcnow_r fails utcnow db
    (order_r driver_r order_id driver_id : Z) :
  let db1 := snd (reject_order fails_r utcnow_r db order_r driver_r) in
  fst (assign_order_to_first_accepter fails utcnow db1 order_id driver_id)
  = fst (assign_order_to_first_accepter fails utcnow db order_id driver_id)
  /\ orders (snd (assign_order_to_first_accepter fails utcnow db1 order_id driver_id))
     = orders (snd (assign_order_to_first_accepter fails utcnow db order_id driver_id))
  /\ drivers (snd (assign_order_to_first_accepter fails utcnow db1 order_id driver_id))
     = drivers (snd (assign_order_to_first_accepter fails utcnow db order_id driver_id)).
Proof.
  intros db1.
  assert (Hsame : orders db1 = orders db /\ drivers db1 = drivers db).
  { unfold db1. rewrite reject_order_run.
    destruct (fails_r 0%nat); [now split |].
    destruct (list_find _ _) as [[k n] |]; [| now split].
    destruct (fails_r 1%nat); now split. }
  destruct Hsame as [Ho Hd]. clearbody db1.
  unfold assign_order_to_first_accepter. rewrite !assign_body_run, Ho, Hd.
  destruct (fails 0%nat); [simpl; auto |].
  destruct (list_find _ (orders db)) as [[i o] |]; [| simpl; auto].
  destruct (fails 1%nat); [simpl; auto |].
  destruct (list_find _ (drivers db)) as [[j d] |]; [| simpl; auto].
  destruct (assign_locked_run fails utcnow i j order_id driver_id (bump (bump (begin db1))))
    as (ns1 & r1 & _ & Hrun1).
  destruct (assign_locked_run fails utcnow i j order_id driver_id (bump (bump (begin db))))
    as (ns2 & r2 & _ & Hrun2).
  simpl in Hrun1, Hrun2. rewrite Ho, Hd in Hrun1.
  destruct (fails 2%nat || fails 3%nat || fails 4%nat).
  - destruct Hrun1 as (s1 & -> & Hc1). destruct Hrun2 as (s2 & -> & Hc2).
    simpl. rewrite Hc1, Hc2. auto.
  - rewrite Hrun1, Hrun2. simpl. auto.
Qed.
End AssignmentInvariants.

Lemma rejected_offer_survives_witness :
  order_notifications
    (snd (assign_order_to_first_accepter no_faults (clock 3000)
            (snd (reject_order no_faults (clock 2000) db_open 1 2)) 1 1)) !! 1%nat
  = Some (set_response "rejected" 2000 (offer 2 (8 # 1))).
Proof.
  apply (rejected_offer_survives no_faults (clock 3000) (clock 2000) db_open 1 1 2
           1%nat (offer 2 (8 # 1))); [discriminate | reflexivity].
Defined.

Lemma assign_preserves_rows_witness :
  Order.id <$> orders db_taken = Order.id <$> orders db_open
  /\ Driver.id <$> drivers db_taken = Driver.id <$> drivers db_open
  /\ List.length (order_notifications db_taken) = List.length (order_notifications db_open).
Proof.
  destruct (assign_preserves_rows no_faults (clock 1000) db_open 1 1)
    as (Ho & Hd & Hn & _).
  auto.
Defined.

(* ----------------------------------------------------------------- *)
(** ** Selection after an assignment *)

Lemma candidate_rows {F : Type} `{PyFloatOrder F}
    (oracle : nat -> F * F -> F * F -> option (RouteInfo.t F))
    (haversine : F * F -> F * F -> F) (db db' : DB F) (order : Order.t F)
    (candidates : list (Candidate.t F)) :
  NoDup (Driver.id <$> drivers db) ->
  get_drivers_for_notification oracle haversine db order = Some (candidates, db') ->
  forall c, c ∈ candidates ->
    Candidate.driver c ∈ drivers db
    /\ Driver.status (Candidate.driver c) = AVAILABLE
    /\ Driver.approval_status (Candidate.driver c) = APPROVED
    /\ Candidate.driver_id c = Driver.id (Candidate.driver c).
Proof.
  intros Hkey Hrun c Hc. unfold get_drivers_for_notification in Hrun.
  rewrite (find_available_drivers_spec _ _ _ _ Hkey) in Hrun.
  assert (Hc' : c ∈ take 5 (sort_by_key Candidate.distance_km
                              (spec_in_range oracle haversine db order))).
  { destruct (take 5 _); injection Hrun as <- _; assumption. }
  apply subseteq_take in Hc'. rewrite sort_by_key_perm in Hc'.
  unfold spec_in_range in Hc'. apply list_elem_of_filter in Hc' as [_ Hc'].
  apply elem_of_zip_with in Hc' as (d & e & -> & Hd & _).
  apply list_elem_of_filter in Hd as [(Hst & Hap & _) Hd]. simpl. auto.
Qed.

(** X17. The winner of an order is not offered the next ones: with
    driver identifiers unique, after a call has returned [True] for a
    driver, that driver is in no candidate list computed from the
    database it left, for any order and any routing answers. *)
Theorem winner_not_offered {F : Type} `{PyFloatOrder F} fails utcnow (db db1 : DB F)
    (order_id driver_id : Z) :
  NoDup (Driver.id <$> drivers db) ->
  assign_order_to_first_accepter fails utcnow db order_id driver_id = (true, db1) ->
  forall oracle haversine order candidates db2,
    get_drivers_for_notification oracle haversine db1 order = Some (candidates, db2) ->
    forall c, c ∈ candidates -> Candidate.driver_id c <> driver_id.
Proof.
  intros Hkey Hwin oracle haversine order candidates db2 Hsel c Hc Hid.
  apply assign_true_run in Hwin as (i & o & j & d & _ & Hd & _ & Hdrivers & _).
  pose proof Hd as (Hj & [Hdid _] & _)%list_find_Some.
  assert (Hids : Driver.id <$> drivers db1 = Driver.id <$> drivers db).
  { rewrite Hdrivers, list_fmap_insert. apply list_insert_id.
    now rewrite list_lookup_fmap, Hj. }
  assert (Hkey1 : NoDup (Driver.id <$> drivers db1)) by now rewrite Hids.
  destruct (candidate_rows oracle haversine db1 db2 order candidates Hkey1 Hsel c Hc)
    as (Hrow & Hst & _ & Hcid).
  rewrite Hdrivers in Hrow. apply list_elem_of_lookup_1 in Hrow as [m Hm].
  destruct (decide (m = j)) as [-> | Hne].
  - rewrite list_lookup_insert_eq in Hm by now apply lookup_lt_Some in Hj.
    injection Hm as Hm. rewrite <- Hm in Hst. discriminate.
  - rewrite list_lookup_insert_ne in Hm by congruence. apply Hne.
    eapply NoDup_lookup; [exact Hkey | |].
    + rewrite list_lookup_fmap, Hm. reflexivity.
    + rewrite list_lookup_fmap, Hj. simpl. congruence.
Qed.

Lemma fleet_keys : NoDup (Driver.id <$> fleet).
Proof. apply (bool_decide_unpack _). vm_compute. exact I. Qed.

Lemma selection_after_assignment :
  get_drivers_for_notification reported (fun _ _ => 0%Q) db_taken order1
  = Some ([Candidate.mk 2 (car_driver 2 (4005 # 100) (-73 # 1) AVAILABLE) (2 # 1) (5 # 1);
           Candidate.mk 3 (car_driver 3 (4050 # 100) (-73 # 1) AVAILABLE) (8 # 1) (15 # 1)],
          mkDB (orders db_taken) (drivers db_taken)
            (order_notifications db_taken ++ [offer 2 (2 # 1); offer 3 (8 # 1)])).
Proof. vm_compute. reflexivity. Qed.

Lemma winner_not_offered_witness :
  Candidate.driver_id
    (Candidate.mk 2 (car_driver 2 (4005 # 100) (-73 # 1) AVAILABLE) (2 # 1) (5 # 1)) <> 1.
Proof.
  apply (winner_not_offered no_faults (clock 1000) db_open db_taken 1 1
           fleet_keys db_open_assigned
           reported (fun _ _ => 0%Q) order1 _ _ selection_after_assignment).
  apply list_elem_of_here.
Defined.

(* ----------------------------------------------------------------- *)
(** ** The endpoints of a driver *)

Section EndpointFacts.
Context {F : Type}.
Implicit Types (db : DB F) (d : Driver.t F).

(** X18. Accepting an order commits before it notifies. For an approved,
    available caller the database the endpoint leaves is the one the
    assignment left, whatever becomes of the notification. When the
    assignment returns [False] nothing is sent. When it returns [True]
    and the manager's dictionaries agree, the caller is told the order is
    accepted even without a live connection, and at most one text is
    written. A caller that is not approved gets 403, one that is not
    available 400, and nothing is touched. *)
Theorem accept_order_commits fails utcnow send_text dumps db (m : ConnectionManager)
    (order_id : Z) (j : nat) d :
  drivers db !! j = Some d ->
  let out := accept_order fails utcnow send_text dumps db m order_id j in
  let run := assign_order_to_first_accepter fails utcnow db order_id (Driver.id d) in
  (Driver.approval_status d <> APPROVED -> out = (HTTPException 403, db, m, []))
  /\ (Driver.approval_status d = APPROVED -> Driver.status d <> AVAILABLE ->
      out = (HTTPException 400, db, m, []))
  /\ (Driver.approval_status d = APPROVED -> Driver.status d = AVAILABLE ->
      out.1.1.2 = run.2
      /\ (run.1 = false -> out = (Message "Order no longer available", db, m, []))
      /\ (run.1 = true -> consistent m ->
          out.1.1.1 = Message "Order accepted successfully"
          /\ consistent out.1.2
          /\ (List.length out.2 <= 1)%nat
          /\ (active_connections m !! Driver.id d = None -> out.1.2 = m /\ out.2 = []))).
Proof.
  intros Hj. unfold accept_order. rewrite Hj. cbv zeta.
  split; [| split].
  - intros Hap. now rewrite bool_decide_eq_false_2.
  - intros Hap Hst. now rewrite bool_decide_eq_true_2, bool_decide_eq_false_2.
  - intros Hap Hst. rewrite !bool_decide_eq_true_2 by assumption. simpl.
    destruct (assign_order_to_first_accepter fails utcnow db order_id (Driver.id d))
      as [[|] db'] eqn:Hrun; simpl.
    + split; [| split; [discriminate |]].
      * now destruct (send_order_status_update _ _ _ _ _ _ _) as [[[b |] m'] wire].
      * intros _ Hc. unfold send_order_status_update.
        destruct (active_connections m !! Driver.id d) as [ws |] eqn:Hconn.
        -- destruct (send_agreeing send_text m
                       (dumps order_id "assigned" "Order assigned successfully")
                       (Driver.id d) Hc)
             as (success & m' & wire & -> & Hc' & _ & Hyes & Hno).
           simpl. split; [reflexivity |]. split; [assumption |].
           split; [| discriminate].
           destruct success.
           ++ destruct (Hyes eq_refl) as (_ & ws' & _ & _ & ->). simpl. lia.
           ++ destruct (Hno eq_refl) as (-> & _). simpl. lia.
        -- unfold send_personal_message. rewrite Hconn. simpl.
           split; [reflexivity |]. split; [assumption |]. split; [lia | auto].
    + apply false_leaves_db in Hrun as ->.
      split; [reflexivity |]. split; [reflexivity | discriminate].
Qed.

Lemma update_order_status_run fails utcnow db (order_id : Z) (new_status : OrderStatus)
    (j : nat) d :
  drivers db !! j = Some d ->
  update_order_status fails utcnow db order_id new_status j
  = if fails 0%nat then (Uncaught, [], db)
    else match list_find (is_order_of order_id (Driver.id d)) (orders db) with
         | None => (HTTPException 404, [], db)
         | Some (i, o) =>
             if fails 1%nat then (Uncaught, [], db)
             else
               (OrderStatusUpdated (Order.status o) new_status,
                match new_status with
                | IN_PROGRESS => [("picked_up_at", utcnow 0%nat)]
                | DELIVERED => [("delivered_at", utcnow 0%nat)]
                | _ => []
                end,
                mkDB (alter (set_order_status new_status) i (orders db))
                  (match new_status with
                   | DELIVERED => alter (set_status AVAILABLE) j (drivers db)
                   | _ => drivers db
                   end)
                  (order_notifications db))
         end.
Proof.
  intros Hj. unfold update_order_status, update_order_status_body. rewrite Hj.
  rewrite bind_run, query_first_run. simpl.
  destruct (fails 0%nat); [reflexivity |].
  destruct (list_find _ (orders db)) as [[i o] |]; [| reflexivity].
  rewrite bind_run. unfold update_order, set_data at 1. simpl.
  rewrite bind_run. unfold now at 1. simpl.
  destruct new_status;
    unfold stamp_status, commit, execute, publish, update_driver, set_data,
      mret, Tx_ret, mbind, Tx_bind; simpl;
    now destruct (fails 1%nat).
Qed.

(** X19. Only the driver an order is assigned to can change its status:
    when no order of that identifier carries the caller as its driver
    (the order is somebody else's, still pending, or unknown), the
    endpoint answers 404 and the database is as it was. *)
Theorem update_order_status_not_mine fails utcnow db (order_id : Z)
    (new_status : OrderStatus) (j : nat) d :
  drivers db !! j = Some d ->
  (forall o, o ∈ orders db -> Order.id o = order_id ->
     Order.driver_id o <> Some (Driver.id d)) ->
  (update_order_status fails utcnow db order_id new_status j).2 = db
  /\ (update_order_status fails utcnow db order_id new_status j).1.2 = []
  /\ (fails 0%nat = false ->
      update_order_status fails utcnow db order_id new_status j
      = (HTTPException 404, [], db)).
Proof.
  intros Hj Hnot. rewrite (update_order_status_run _ _ _ _ _ _ _ Hj).
  assert (Hnone : list_find (is_order_of order_id (Driver.id d)) (orders db) = None).
  { apply list_find_None, Forall_forall. intros o Ho [Hid Hd]. now apply (Hnot o). }
  rewrite Hnone. destruct (fails 0%nat); [split; [| split]; (reflexivity || discriminate) |].
  auto.
Qed.
End EndpointFacts.

Lemma new_manager_consistent : consistent new_manager.
Proof. intros d ws. simpl. now rewrite !lookup_empty. Qed.

Lemma accept_order_commits_witness :
  let out := accept_order no_faults (clock 1000) (fun _ => true) (fun _ _ text => text)
               db_open new_manager 1 0 in
  out.1.1.1 = Message "Order accepted successfully"
  /\ out.1.1.2 = db_taken
  /\ out.2 = [].
Proof.
  intros out.
  pose proof (accept_order_commits no_faults (clock 1000) (fun _ => true)
                (fun _ _ text => text) db_open new_manager 1 0%nat
                (car_driver 1 (4001 # 100) (-73 # 1) AVAILABLE) eq_refl)
    as (_ & _ & Hok).
  destruct (Hok eq_refl eq_refl) as (Hdb & _ & Hyes).
  destruct (Hyes (f_equal fst db_open_assigned) new_manager_consistent)
    as (Hmsg & _ & _ & Hoff).
  split; [exact Hmsg |]. split.
  - etransitivity; [exact Hdb |]. exact (f_equal snd db_open_assigned).
  - exact (proj2 (Hoff (lookup_empty _))).
Defined.

Lemma update_order_status_not_mine_witness :
  update_order_status no_faults (clock 3000) db_taken 1 DELIVERED 1
  = (HTTPException 404, [], db_taken).
Proof.
  apply (update_order_status_not_mine no_faults (clock 3000) db_taken 1 DELIVERED 1%nat
           (car_driver 2 (4005 # 100) (-73 # 1) AVAILABLE)); [reflexivity | | reflexivity].
  intros o Ho _. rewrite db_taken_eq in Ho. simpl in Ho.
  apply list_elem_of_singleton in Ho as ->. discriminate.
Defined.

Section Lifecycle.
Context {F : Type}.
Implicit Types (db : DB F) (d : Driver.t F).

Lemma set_status_back d :
  Driver.status d = AVAILABLE -> set_status AVAILABLE (set_status BUSY d) = d.
Proof. destruct d. simpl. now intros ->. Qed.


Lemma update_driver_status_run fails db (new_status : DriverStatus) (j : nat) d :
  drivers db !! j = Some d ->
  update_driver_status fails db new_status j
  = if negb (bool_decide (Driver.approval_status d = APPROVED))
    then (HTTPException 403, db)
    else if fails 0%nat then (Uncaught, db)
    else (DriverStatusUpdated new_status,
          mkDB (orders db) (alter (set_status new_status) j (drivers db))
            (order_notifications db)).
Proof.
  intros Hj. unfold update_driver_status, update_driver_status_body. rewrite Hj.
  destruct (negb _); [reflexivity |].
  unfold commit, execute, publish, update_driver, set_data, mret, Tx_ret, mbind, Tx_bind.
  simpl. now destruct (fails 0%nat).
Qed.

(** X21. A driver that is not approved cannot change its status: the
    endpoint answers 403 and the database is as it was. An approved
    driver that sets itself busy or offline is out of the race: with
    driver identifiers unique, every later attempt to assign an order to
    it, whatever the order and whatever fails, returns [False] and changes
    nothing. *)
Theorem update_driver_status_withdraws db (new_status : DriverStatus) (j : nat) d :
  drivers db !! j = Some d ->
  (Driver.approval_status d <> APPROVED ->
   forall fails, update_driver_status fails db new_status j = (HTTPException 403, db))
  /\ (Driver.approval_status d = APPROVED -> new_status <> AVAILABLE ->
      NoDup (Driver.id <$> drivers db) ->
      exists db1,
        update_driver_status no_faults db new_status j = (DriverStatusUpdated new_status, db1)
        /\ orders db1 = orders db
        /\ order_notifications db1 = order_notifications db
        /\ forall fails utcnow order_id,
             assign_order_to_first_accepter fails utcnow db1 order_id (Driver.id d)
             = (false, db1)).
Proof.
  intros Hj. split.
  - intros Hap fails. rewrite (update_driver_status_run _ _ _ _ _ Hj).
    now rewrite bool_decide_eq_false_2.
  - intros Hap Hnew Hkey. rewrite (update_driver_status_run _ _ _ _ _ Hj).
    rewrite bool_decide_eq_true_2 by assumption. simpl.
    eexists. split; [reflexivity |]. simpl. split; [reflexivity |]. split; [reflexivity |].
    intros fails utcnow order_id. apply assign_run_none. right. simpl.
    apply list_find_None, Forall_forall. intros x Hx (Hid & Hst & _).
    apply list_elem_of_lookup_1 in Hx as [m Hm].
    destruct (decide (m = j)) as [-> | Hne].
    + rewrite list_lookup_alter_eq, Hj in Hm. injection Hm as <-. contradiction.
    + rewrite list_lookup_alter_ne in Hm by congruence. apply Hne.
      eapply NoDup_lookup; [exact Hkey | |].
      * rewrite list_lookup_fmap, Hm. reflexivity.
      * rewrite list_lookup_fmap, Hj. simpl. congruence.
Qed.
End Lifecycle.


Lemma update_driver_status_withdraws_witness :
  exists db1,
    update_driver_status no_faults db_open OFFLINE 1
    = (DriverStatusUpdated OFFLINE, db1)
    /\ assign_order_to_first_accepter no_faults (clock 1000) db1 1 2 = (false, db1).
Proof.
  destruct (proj2 (update_driver_status_withdraws db_open OFFLINE 1%nat
                     (car_driver 2 (4005 # 100) (-73 # 1) AVAILABLE) eq_refl))
    as (db1 & Hrun & _ & _ & Hassign);
    [reflexivity | discriminate | apply (bool_decide_unpack _); vm_compute; exact I |].
  exists db1. split; [assumption |]. apply (Hassign no_faults (clock 1000) 1).
Defined.

(* ----------------------------------------------------------------- *)
(** ** One offer per driver *)

Lemma zip_driver_ids {F : Type} (l : list (Driver.t F)) (k : list (DistanceInfo.t F)) :
  (Candidate.driver_id <$> zip_with with_estimate l k) `sublist_of` (Driver.id <$> l).
Proof.
  revert k. induction l as [| d l IH]; intros [| e k]; simpl.
  - constructor.
  - constructor.
  - apply sublist_nil_l.
  - apply sublist_skip, IH.
Qed.

(** X22. No driver is offered the same order twice by one selection:
    with driver identifiers unique, the candidates of an order are
    distinct drivers, and so are the drivers of the offers recorded for
    them. *)
Theorem candidates_distinct {F : Type} `{PyFloatOrder F}
    (oracle : nat -> F * F -> F * F -> option (RouteInfo.t F))
    (haversine : F * F -> F * F -> F) (db db' : DB F) (order : Order.t F)
    (candidates : list (Candidate.t F)) :
  NoDup (Driver.id <$> drivers db) ->
  get_drivers_for_notification oracle haversine db order = Some (candidates, db') ->
  NoDup (Candidate.driver_id <$> candidates)
  /\ exists offers,
       order_notifications db' = (order_notifications db ++ offers)%list
       /\ OrderNotification.driver_id <$> offers = Candidate.driver_id <$> candidates
       /\ Forall (fun n => OrderNotification.order_id n = Order.id order
                           /\ OrderNotification.response n = None) offers.
Proof.
  intros Hkey Hrun. unfold get_drivers_for_notification in Hrun.
  rewrite (find_available_drivers_spec _ _ _ _ Hkey) in Hrun.
  set (ranked := sort_by_key Candidate.distance_km (spec_in_range oracle haversine db order))
    in Hrun.
  assert (Hnd : NoDup (Candidate.driver_id <$> take 5 ranked)).
  { apply (sublist_NoDup _ (Candidate.driver_id <$> ranked));
      [| apply fmap_sublist, sublist_take].
    unfold ranked. rewrite sort_by_key_perm. unfold spec_in_range.
    eapply sublist_NoDup; [| apply fmap_sublist, sublist_filter].
    eapply sublist_NoDup; [| apply zip_driver_ids].
    apply (sublist_NoDup _ (Driver.id <$> drivers db) Hkey).
    apply fmap_sublist, sublist_filter. }
  assert (Hshape : candidates = take 5 ranked
                   /\ db' = mkDB (orders db) (drivers db)
                              (order_notifications db
                               ++ List.map (fun c => OrderNotification.mk (Order.id order)
                                                       (Candidate.driver_id c) None None
                                                       (Candidate.distance_km c))
                                    candidates)).
  { destruct (take 5 ranked) as [| c rest] eqn:Htake.
    - injection Hrun as <- <-. split; [reflexivity |]. simpl.
      rewrite app_nil_r. now destruct db.
    - injection Hrun as <- <-. split; reflexivity. }
  destruct Hshape as [-> ->]. split; [assumption |].
  eexists. split; [reflexivity |]. split.
  - clear. induction (take 5 ranked) as [| c l IH]; simpl; [reflexivity | now f_equal].
  - apply Forall_forall. intros n Hn. apply list_elem_of_In, in_map_iff in Hn
      as (c & <- & _). now split.
Qed.

Lemma selection_of_new_order :
  get_drivers_for_notification reported (fun _ _ => 0%Q) db_new order1
  = Some ([Candidate.mk 1 (car_driver 1 (4001 # 100) (-73 # 1) AVAILABLE) (2 # 1) (5 # 1);
           Candidate.mk 2 (car_driver 2 (4005 # 100) (-73 # 1) AVAILABLE) (8 # 1) (15 # 1)],
          mkDB [order1] fleet [offer 1 (2 # 1); offer 2 (8 # 1)]).
Proof. vm_compute. reflexivity. Qed.

Lemma candidates_distinct_witness :
  NoDup (Candidate.driver_id <$>
           [Candidate.mk 1 (car_driver 1 (4001 # 100) (-73 # 1) AVAILABLE) (2 # 1) (5 # 1);
            Candidate.mk 2 (car_driver 2 (4005 # 100) (-73 # 1) AVAILABLE) (8 # 1) (15 # 1)]).
Proof.
  exact (proj1 (candidates_distinct reported (fun _ _ => 0%Q) db_new _ order1 _
                  fleet_keys selection_of_new_order)).
Defined.
